(** * The Adapter of remotedebug-ios-webkit-adapter (src/adapters/adapter.ts)

    A shallow embedding of the [Adapter] class: its constructor, the
    discovery call [getTargets] with the descriptor rewrite [setTargetInfo],
    the binding operations [connectTo] and [forwardTo], and the life cycle of
    the helper process ([start], [stop], [forceRefresh]).

    The class mutates its own fields, the process table of the operating
    system, the [Target] objects it creates and the log; every method is a
    function from the state of that world to a result and the next state. *)

From Stdlib Require Import ZArith Ascii.
From stdpp Require Import base option list gmap strings.

Local Open Scope Z_scope.

(** ** JavaScript strings *)

(** A string is the UTF-8 text of the JavaScript string, and positions count
    bytes.  JavaScript counts UTF-16 units; the two agree at a position when
    every character before it is ASCII.  Comparison, concatenation and
    [replace] do not depend on positions.  Of the functions that do, the class
    uses [indexOf] and [substr] in its constructor only, from position 1: what
    is stated of them is stated for ids whose first character is ASCII, which
    the path-like ids, starting with a slash, are. *)

Module JsString.

(** [s.slice(n)] for [0 <= n]: the string without its first [n] characters. *)
Fixpoint drop (n : nat) (s : string) : string :=
  match n, s with
  | O, _ => s
  | S _, EmptyString => EmptyString
  | S n', String _ s' => drop n' s'
  end.

(** The first [n] characters of [s]. *)
Fixpoint take (n : nat) (s : string) : string :=
  match n, s with
  | O, _ => EmptyString
  | S _, EmptyString => EmptyString
  | S n', String c s' => String c (take n' s')
  end.

(** Offset of the first occurrence of [pat] in [s]. *)
Fixpoint search (pat s : string) : option nat :=
  if String.prefix pat s then Some O
  else match s with
       | EmptyString => None
       | String _ s' => S <$> search pat s'
       end.

(** [s.indexOf(pat, from)] for [0 <= from]: the position is clamped to the
    length of [s], the result is [-1] when there is no occurrence. *)
Definition indexOf (s pat : string) (from : nat) : Z :=
  let from := Nat.min from (String.length s) in
  match search pat (drop from s) with
  | Some i => Z.of_nat (from + i)
  | None => -1
  end.

(** [s.substr(start, len)]: a negative [start] counts from the end, a
    negative [len] selects nothing. *)
Definition substr (s : string) (start len : Z) : string :=
  let size := Z.of_nat (String.length s) in
  let start := if start <? 0 then Z.max (size + start) 0 else Z.min start size in
  take (Z.to_nat len) (drop (Z.to_nat start) s).

(** [s.replace(pat, repl)] with a string pattern (only the first occurrence
    is replaced) and a replacement without [$] patterns. *)
Fixpoint replace (s pat repl : string) : string :=
  if String.prefix pat s then repl +:+ drop (String.length pat) s
  else match s with
       | EmptyString => EmptyString
       | String c s' => String c (replace s' pat repl)
       end.

(** Whether [c] occurs in [s]. *)
Fixpoint mem (c : ascii) (s : string) : bool :=
  match s with
  | EmptyString => false
  | String d s' => if Ascii.eqb d c then true else mem c s'
  end.

End JsString.

(** ** JavaScript values *)

(** The values this class handles: [undefined] and what [JSON.parse]
    produces.  A number is represented by the string [ToString] gives for it
    ([0] and [-0] both print as 0, which is also how [===], [Map] keys and
    [JSON.stringify] treat them); no arithmetic is done on numbers here.  An
    object is the list of its own properties in property order.

    The metadata of a call, of type [any] in the source, ranges over these
    values as well.  Values that [JSON.stringify] throws on (a BigInt, an
    object that contains itself) or serialises by a method of their own
    (a Date, an object with a callable [toJSON]) are not represented: what is
    stated for every metadata is stated for [undefined], [null], booleans,
    numbers, strings, and the arrays and plain objects built from them. *)
#[warnings="-register-all"]
Inductive JsVal : Type :=
| JUndefined
| JNull
| JBool (b : bool)
| JNum (repr : string)
| JStr (s : string)
| JArr (elems : list JsVal)
| JObj (props : list (string * JsVal)).

Abbreviation Obj := (list (string * JsVal)) (only parsing).

(** ToBoolean. Arrays and objects are always truthy. *)
Definition truthy (v : JsVal) : bool :=
  match v with
  | JUndefined | JNull => false
  | JBool b => b
  | JNum r => negb (String.eqb r "0" || String.eqb r "NaN")
  | JStr s => negb (String.eqb s "")
  | JArr _ | JObj _ => true
  end.

(** [a || b] *)
Definition js_or (a b : JsVal) : JsVal := if truthy a then a else b.

(** [o.k]: the value of the own property, [undefined] when there is none. *)
Fixpoint obj_get (o : Obj) (k : string) : JsVal :=
  match o with
  | [] => JUndefined
  | (k', v) :: o' => if String.eqb k' k then v else obj_get o' k
  end.

(** [k in o], for own properties. *)
Fixpoint obj_has (o : Obj) (k : string) : bool :=
  match o with
  | [] => false
  | (k', _) :: o' => if String.eqb k' k then true else obj_has o' k
  end.

(** [o.k = v]: an existing property keeps its place, a new one comes last. *)
Fixpoint obj_set (o : Obj) (k : string) (v : JsVal) : Obj :=
  match o with
  | [] => [(k, v)]
  | (k', v') :: o' =>
      if String.eqb k' k then (k', v) :: o' else (k', v') :: obj_set o' k v
  end.


(** *** [JSON.parse(JSON.stringify(v))] *)

(** Numbers that are not finite are serialised as [null]. *)
Definition finite (repr : string) : bool :=
  negb (String.eqb repr "NaN" || String.eqb repr "Infinity"
        || String.eqb repr "-Infinity").

(** The value [JSON.stringify] writes for [v] as [JSON.parse] reads it back;
    [None] when [v] is [undefined], which has no serialisation: an object
    leaves such a property out and an array writes [null] in its place. *)
Fixpoint json_copy (v : JsVal) : option JsVal :=
  match v with
  | JUndefined => None
  | JNull => Some JNull
  | JBool b => Some (JBool b)
  | JNum r => Some (if finite r then JNum r else JNull)
  | JStr s => Some (JStr s)
  | JArr elems =>
      Some (JArr ((fix copy_elems (l : list JsVal) : list JsVal :=
                     match l with
                     | [] => []
                     | e :: l' =>
                         match json_copy e with
                         | Some e' => e'
                         | None => JNull
                         end :: copy_elems l'
                     end) elems))
  | JObj props =>
      Some (JObj ((fix copy_props (l : Obj) : Obj :=
                     match l with
                     | [] => []
                     | (k, x) :: l' =>
                         match json_copy x with
                         | Some x' => (k, x') :: copy_props l'
                         | None => copy_props l'
                         end
                     end) props))
  end.

(** The properties of the copy of an object. *)
Fixpoint copy_props (l : Obj) : Obj :=
  match l with
  | [] => []
  | (k, x) :: l' =>
      match json_copy x with
      | Some x' => (k, x') :: copy_props l'
      | None => copy_props l'
      end
  end.

(** [JSON.parse(JSON.stringify(o))] for an object [o]. *)
Definition json_clone (o : Obj) : Obj := copy_props o.

(** A value as [JSON.parse] produces them: no [undefined] inside, every
    number finite. *)
Fixpoint json_clean (v : JsVal) : bool :=
  match v with
  | JUndefined => false
  | JNull | JBool _ | JStr _ => true
  | JNum r => finite r
  | JArr elems =>
      (fix clean_elems (l : list JsVal) : bool :=
         match l with
         | [] => true
         | e :: l' => json_clean e && clean_elems l'
         end) elems
  | JObj props =>
      (fix clean_props (l : Obj) : bool :=
         match l with
         | [] => true
         | (_, x) :: l' => json_clean x && clean_props l'
         end) props
  end.

(** [json_clean] for the properties of an object. *)
Fixpoint clean_props (l : Obj) : bool :=
  match l with
  | [] => true
  | (_, x) :: l' => json_clean x && clean_props l'
  end.

(** *** ToString, as a template literal applies it *)

(** [None] stands for the TypeError of an object that cannot be converted: an
    object read from JSON inherits [Object.prototype.toString] unless it has
    an own property of that name, which is never callable. *)
Fixpoint to_string (v : JsVal) : option string :=
  match v with
  | JUndefined => Some "undefined"
  | JNull => Some "null"
  | JBool b => Some (if b then "true" else "false")
  | JNum r => Some r
  | JStr s => Some s
  | JArr elems =>
      (fix join (l : list JsVal) : option string :=
         match l with
         | [] => Some ""
         | e :: l' =>
             let first :=
               match e with
               | JUndefined | JNull => Some ""
               | _ => to_string e
               end in
             match first, l' with
             | Some a, [] => Some a
             | Some a, _ :: _ =>
                 match join l' with
                 | Some b => Some (a +:+ "," +:+ b)
                 | None => None
                 end
             | None, _ => None
             end
         end) elems
  | JObj props => if obj_has props "toString" then None else Some "[object Object]"
  end.

(** ** JavaScript [Map] *)

(** SameValueZero, the equality of [Map] keys.  Primitive values are compared
    by value.  Arrays and objects are compared by reference: every key this
    class stores comes out of a freshly parsed response body, so such a key is
    the same as no key stored before. *)
Definition same_value_zero (a b : JsVal) : bool :=
  match a, b with
  | JUndefined, JUndefined => true
  | JNull, JNull => true
  | JBool x, JBool y => Bool.eqb x y
  | JNum x, JNum y => String.eqb x y
  | JStr x, JStr y => String.eqb x y
  | _, _ => false
  end.

(** A [Map] in insertion order. *)
Abbreviation JsMap V := (list (JsVal * V)) (only parsing).

Fixpoint map_get {V} (m : JsMap V) (k : JsVal) : option V :=
  match m with
  | [] => None
  | (k', v) :: m' => if same_value_zero k' k then Some v else map_get m' k
  end.

Definition map_has {V} (m : JsMap V) (k : JsVal) : bool :=
  match map_get m k with Some _ => true | None => false end.

(** [m.set(k, v)]: the entry of an existing key is replaced where it is. *)
Fixpoint map_set {V} (m : JsMap V) (k : JsVal) (v : V) : JsMap V :=
  match m with
  | [] => [(k, v)]
  | (k', v') :: m' =>
      if same_value_zero k' k then (k', v) :: m' else (k', v') :: map_set m' k v
  end.

(** Number of entries stored under [k]. *)
Fixpoint map_count {V} (m : JsMap V) (k : JsVal) : nat :=
  match m with
  | [] => O
  | (k', _) :: m' =>
      ((if same_value_zero k' k then 1 else 0) + map_count m' k)%nat
  end.

(** ** The world of an Adapter *)

(** Modelled from the spec: the interface [IAdapterOptions]
    (adapters/adapterInterfaces.ts) is not among the sources.  Its fields are
    the ones the class reads, typed by their use and by the configuration
    surface of the specification; an absent field is [None].  Numbers are
    kept as their decimal text, see [JsVal]. *)
Record IAdapterOptions : Type := mkOptions {
  pollingInterval : option string;
  baseUrl : option string;
  path : option string;
  port : option string;
  proxyExePath : option string;
  proxyExeArgs : option (list string);
}.

(** A [ChildProcess] is its place in the table of spawned processes, a
    [Target] its place in the heap of [Target] objects, a [WebSocket] an
    opaque connection. *)
Abbreviation ChildProcess := nat (only parsing).
Abbreviation TargetRef := nat (only parsing).
Abbreviation WebSocket := nat (only parsing).

(** What the operating system knows of a spawned process: the command line
    and the signals sent to it so far. *)
Record Process : Type := mkProcess {
  proc_path : string;
  proc_args : option (list string);
  proc_signals : list string;
}.

(** Modelled from the spec: the class [Target] (protocols/target.ts) is not
    among the sources; the specification gives its interface as
    [connectTo(realWebSocketUrl, clientConnection)],
    [updateClient(clientConnection)], [forward(message)] and a closure
    notification.  A [Target] here is what the Adapter constructed it with
    and the calls it has received since, oldest first; its constructor and
    its methods return normally. *)
Inductive TargetCall : Type :=
| CallConnectTo (url : JsVal) (wsFrom : WebSocket)
| CallUpdateClient (wsFrom : WebSocket)
| CallForward (message : string)
| CallOn (event : string).

Record Target : Type := mkTarget {
  target_id : string;
  target_data : Obj;
  target_calls : list TargetCall;
}.

Definition target_call (c : TargetCall) (t : Target) : Target :=
  mkTarget (target_id t) (target_data t) (target_calls t ++ [c]).

Inductive LogEntry : Type :=
| LogInfo (text : string)
| LogError (text : string).

Record Adapter : Type := mkAdapter {
  _id : string;
  _adapterType : string;
  _proxyUrl : string;
  _options : IAdapterOptions;
  _url : string;
  _proxyProc : option ChildProcess;
  _targetMap : gmap string TargetRef;
  _targetIdToTargetDataMap : JsMap Obj;
}.

Definition with_proxyProc (a : Adapter) (p : option ChildProcess) : Adapter :=
  mkAdapter (_id a) (_adapterType a) (_proxyUrl a) (_options a) (_url a)
            p (_targetMap a) (_targetIdToTargetDataMap a).

Definition with_targetMap (a : Adapter) (m : gmap string TargetRef) : Adapter :=
  mkAdapter (_id a) (_adapterType a) (_proxyUrl a) (_options a) (_url a)
            (_proxyProc a) m (_targetIdToTargetDataMap a).

Definition with_targetData (a : Adapter) (m : JsMap Obj) : Adapter :=
  mkAdapter (_id a) (_adapterType a) (_proxyUrl a) (_options a) (_url a)
            (_proxyProc a) (_targetMap a) m.

Record World : Type := mkWorld {
  adapter : Adapter;
  processes : list Process;
  targets : list Target;
  log : list LogEntry;
  emitted : list (string * string);
}.

Definition with_adapter (w : World) (a : Adapter) : World :=
  mkWorld a (processes w) (targets w) (log w) (emitted w).

Definition with_processes (w : World) (ps : list Process) : World :=
  mkWorld (adapter w) ps (targets w) (log w) (emitted w).

Definition with_targets (w : World) (ts : list Target) : World :=
  mkWorld (adapter w) (processes w) ts (log w) (emitted w).

Definition logger (e : LogEntry) (w : World) : World :=
  mkWorld (adapter w) (processes w) (targets w) (log w ++ [e]) (emitted w).

Definition emit (event arg : string) (w : World) : World :=
  mkWorld (adapter w) (processes w) (targets w) (log w) (emitted w ++ [(event, arg)]).

(** ** The constructor *)

(** [x || d] for an optional string and for an optional number. *)
Definition str_or (x : option string) (d : string) : string :=
  match x with
  | Some s => if String.eqb s "" then d else s
  | None => d
  end.

Definition num_or (x : option string) (d : string) : string :=
  match x with
  | Some n => if String.eqb n "0" || String.eqb n "NaN" then d else n
  | None => d
  end.

Definition default_options (o : IAdapterOptions) : IAdapterOptions :=
  mkOptions (Some (num_or (pollingInterval o) "3000"))
            (Some (str_or (baseUrl o) "http://127.0.0.1"))
            (Some (str_or (path o) "/json"))
            (Some (num_or (port o) "9222"))
            (proxyExePath o) (proxyExeArgs o).

(** An optional field inside a template literal. *)
Definition template (x : option string) : string := default "undefined" x.

(** The adapter type the constructor derives.  Position 1 is the second
    byte here and the second UTF-16 unit in the source: the two are the same
    place when the first character of the id is ASCII (see [JsString]). *)
Definition adapterType_of (id : string) : string :=
  let index := JsString.indexOf id "/" 1 in
  if 0 <=? index then "_" +:+ JsString.substr id 1 (index - 1)
  else JsString.replace id "/" "_".

Definition new_Adapter (id socket : string) (options : IAdapterOptions) : Adapter :=
  let options := default_options options in
  mkAdapter id (adapterType_of id) socket options
            (template (baseUrl options) +:+ ":" +:+ template (port options)
             +:+ template (path options))
            None ∅ [].

Definition new_World (id socket : string) (options : IAdapterOptions) : World :=
  mkWorld (new_Adapter id socket options) [] [] [] [].

(** ** The helper process *)

(** [spawn(path, args, ...)]: a new entry of the process table. *)
Definition spawn (path : string) (args : option (list string)) (w : World)
  : ChildProcess * World :=
  (length (processes w), with_processes w (processes w ++ [mkProcess path args []])).

(** [process.kill(signal)] *)
Definition kill (p : ChildProcess) (signal : string) (w : World) : World :=
  with_processes w
    (alter (λ pr, mkProcess (proc_path pr) (proc_args pr) (proc_signals pr ++ [signal]))
           p (processes w)).

Definition spawnProcess (path : string) (args : option (list string)) (w : World)
  : option ChildProcess * World :=
  match _proxyProc (adapter w) with
  | None =>
      let '(p, w) := spawn path args w in
      let w := with_adapter w (with_proxyProc (adapter w) (Some p)) in
      (_proxyProc (adapter w), w)
  | Some p => (Some p, w)
  end.

Definition start (w : World) : World :=
  let w := logger (LogInfo "adapter.start") w in
  match proxyExePath (_options (adapter w)) with
  | Some exe =>
      if String.eqb exe "" then w
      else snd (spawnProcess exe (proxyExeArgs (_options (adapter w))) w)
  | None => w
  end.

Definition stop (w : World) : World :=
  match _proxyProc (adapter w) with
  | Some p =>
      let w := kill p "SIGTERM" w in
      with_adapter w (with_proxyProc (adapter w) None)
  | None => w
  end.

Definition refereshProcess (process : ChildProcess) (path : string)
    (args : list string) (w : World) : World :=
  let w := kill process "SIGTERM" w in
  snd (spawnProcess path (Some args) w).

Definition forceRefresh (w : World) : World :=
  match _proxyProc (adapter w), proxyExePath (_options (adapter w)),
        proxyExeArgs (_options (adapter w)) with
  | Some p, Some exe, Some args =>
      if String.eqb exe "" then w else refereshProcess p exe args w
  | _, _, _ => w
  end.

(** The listener [spawnProcess] puts on the ['error'] event of the process it
    spawns: whichever process is tracked when the event fires is stopped. *)
Definition on_process_error (p : ChildProcess) (w : World) : World :=
  if decide (p < length (processes w))%nat then stop w else w.

(** ** Discovery *)

Definition viewer : string :=
  "https://chrome-devtools-frontend.appspot.com/serve_file/@60cd6e859b9f557d2312f5bf532f6aec5f284980/inspector.html?experiments=true&ws=".

(** The descriptor [t] is rewritten in place and returned; [None] when a
    template literal throws on [t.id], which happens after the endpoint has
    been stored. *)
Definition setTargetInfo (a : Adapter) (t : Obj) (metadata : JsVal)
  : Adapter * option Obj :=
  let id := js_or (obj_get t "id") (obj_get t "appId") in
  let t := obj_set t "id" id in
  let t := obj_set t "adapterType" (JStr (_adapterType a)) in
  let t := obj_set t "type" (js_or (obj_get t "type") (JStr "page")) in
  let t := obj_set t "metadata" metadata in
  let targetData := json_clone t in
  let a := with_targetData a
             (map_set (_targetIdToTargetDataMap a) (obj_get t "id") targetData) in
  match to_string (obj_get t "id") with
  | Some tid =>
      let t := obj_set t "webSocketDebuggerUrl"
                 (JStr (_proxyUrl a +:+ _id a +:+ "/" +:+ tid)) in
      let wsUrl := JsString.replace (_proxyUrl a) "ws://" "" +:+ _id a +:+ "/" +:+ tid in
      let t := obj_set t "devtoolsFrontendUrl" (JStr (viewer +:+ wsUrl)) in
      (a, Some t)
  | None => (a, None)
  end.

(** What the [request] library hands to its callback.  The body is given by
    what [JSON.parse] makes of it; [rawTargets] is declared an array of
    descriptor objects, bodies that parse to anything else are not
    represented. *)
Inductive Body : Type :=
| NotJson
| JsonTargets (rawTargets : list Obj).

Inductive HttpReply : Type :=
| TransportError
| Response (statusCode : Z) (body : Body).

(** The promise a call returns, once the callback of [request] has run.
    [Pending]: the callback threw before calling [resolve], the promise is
    never settled. *)
Inductive Promise (A : Type) : Type :=
| Resolved (value : A)
| Rejected
| Pending.
Arguments Resolved {A} value.
Arguments Rejected {A}.
Arguments Pending {A}.

(** [rawTargets.forEach(t => targets.push(this.setTargetInfo(t, metadata)))];
    [None] when an iteration throws. *)
Fixpoint forEach_setTargetInfo (a : Adapter) (rawTargets : list Obj)
    (metadata : JsVal) (targets : list Obj) : Adapter * option (list Obj) :=
  match rawTargets with
  | [] => (a, Some targets)
  | t :: rest =>
      match setTargetInfo a t metadata with
      | (a, Some t) => forEach_setTargetInfo a rest metadata (targets ++ [t])
      | (a, None) => (a, None)
      end
  end.

Definition getTargets (metadata : JsVal) (reply : HttpReply) (w : World)
  : Promise (list Obj) * World :=
  match reply with
  | TransportError => (Resolved [], w)
  | Response _ NotJson => (Pending, w)
  | Response _ (JsonTargets rawTargets) =>
      match forEach_setTargetInfo (adapter w) rawTargets metadata [] with
      | (a, Some targets) => (Resolved targets, with_adapter w a)
      | (a, None) => (Pending, with_adapter w a)
      end
  end.

(** ** Bindings *)

(** [has] and [get] on the endpoint table are one lookup here: the table
    holds objects, so a key is present exactly when [get] finds a value. *)
Definition connectTo (targetId : string) (wsFrom : WebSocket) (w : World)
  : option TargetRef * World :=
  let a := adapter w in
  match map_get (_targetIdToTargetDataMap a) (JStr targetId) with
  | None =>
      (None, logger (LogError ("No endpoint url found for id " +:+ targetId)) w)
  | Some targetData =>
      match _targetMap a !! targetId with
      | Some target =>
          let w := logger (LogInfo ("Existing target found for id " +:+ targetId)) w in
          let w := with_targets w (alter (target_call (CallUpdateClient wsFrom))
                                         target (targets w)) in
          (Some target, w)
      | None =>
          let target := length (targets w) in
          let w := with_targets w (targets w ++ [mkTarget targetId targetData []]) in
          let w := with_targets w
                     (alter (target_call
                               (CallConnectTo (obj_get targetData "webSocketDebuggerUrl") wsFrom))
                            target (targets w)) in
          let w := with_adapter w
                     (with_targetMap (adapter w)
                        (<[targetId := target]> (_targetMap (adapter w)))) in
          let w := with_targets w (alter (target_call (CallOn "socketClosed"))
                                         target (targets w)) in
          (Some target, w)
      end
  end.

Definition forwardTo (targetId message : string) (w : World) : World :=
  match _targetMap (adapter w) !! targetId with
  | None => logger (LogError ("No target found for id " +:+ targetId)) w
  | Some target =>
      with_targets w (alter (target_call (CallForward message)) target (targets w))
  end.

(** The listener [connectTo] puts on the ['socketClosed'] event of the
    [Target] it creates. *)
Definition on_socketClosed (target : TargetRef) (id : string) (w : World) : World :=
  match targets w !! target with
  | Some _ => emit "socketClosed" id w
  | None => w
  end.

(** ** Runs *)

(** What can happen to an Adapter: a call of a public method, with what the
    environment answers, or an event a listener of the Adapter waits for. *)
Inductive Op : Type :=
| OpStart
| OpStop
| OpGetTargets (metadata : JsVal) (reply : HttpReply)
| OpConnectTo (targetId : string) (wsFrom : WebSocket)
| OpForwardTo (targetId message : string)
| OpForceRefresh
| EvProcessError (p : ChildProcess)
| EvSocketClosed (target : TargetRef) (id : string).

Inductive Ret : Type :=
| RetVoid
| RetTarget (target : option TargetRef)
| RetTargets (p : Promise (list Obj)).

Definition step (op : Op) (w : World) : Ret * World :=
  match op with
  | OpStart => (RetVoid, start w)
  | OpStop => (RetVoid, stop w)
  | OpGetTargets metadata reply =>
      let '(p, w) := getTargets metadata reply w in (RetTargets p, w)
  | OpConnectTo targetId wsFrom =>
      let '(r, w) := connectTo targetId wsFrom w in (RetTarget r, w)
  | OpForwardTo targetId message => (RetVoid, forwardTo targetId message w)
  | OpForceRefresh => (RetVoid, forceRefresh w)
  | EvProcessError p => (RetVoid, on_process_error p w)
  | EvSocketClosed target id => (RetVoid, on_socketClosed target id w)
  end.

(** The results of a sequence of operations, and the world it leaves. *)
Fixpoint run (ops : list Op) (w : World) : list Ret * World :=
  match ops with
  | [] => ([], w)
  | op :: ops' =>
      let '(r, w) := step op w in
      let '(rs, w) := run ops' w in
      (r :: rs, w)
  end.

(** The worlds an Adapter can be in: a new one, and what operations make of it. *)
Inductive reachable : World → Prop :=
| reachable_new id socket options : reachable (new_World id socket options)
| reachable_step op w : reachable w → reachable (snd (step op w)).

(** ** The statements of the specification *)

(** An id is path-like when it starts with a slash. *)
Definition path_like (id : string) : Prop := ∃ rest, id = String "/" rest.

(** The characters of [s] before its first slash. *)
Fixpoint until_slash (s : string) : string :=
  match s with
  | EmptyString => EmptyString
  | String c s' => if Ascii.eqb c "/" then EmptyString else String c (until_slash s')
  end.

(** The adapter type as the specification derives it: the segment between
    the first and the second slash behind an underscore, and without a second
    slash the id with its leading slash stripped. *)
Definition stated_adapterType (id : string) : string :=
  match id with
  | EmptyString => EmptyString
  | String _ rest =>
      if JsString.mem "/" rest then "_" +:+ until_slash rest else rest
  end.



(** The id of a descriptor after normalisation. *)
Definition normal_id (t : Obj) : JsVal := js_or (obj_get t "id") (obj_get t "appId").

(** The descriptor as it stands immediately before its URL is rewritten:
    the id normalised, the adapter type stamped, the type defaulted to
    [page], the metadata attached. *)
Definition pre_rewrite (adapterType : string) (t : Obj) (metadata : JsVal) : Obj :=
  obj_set
    (obj_set
       (obj_set (obj_set t "id" (normal_id t)) "adapterType" (JStr adapterType))
       "type" (js_or (obj_get t "type") (JStr "page")))
    "metadata" metadata.

(** The address of a target in the address space of the relay. *)
Definition relayed_url (a : Adapter) (targetId : string) : string :=
  _proxyUrl a +:+ _id a +:+ "/" +:+ targetId.


(** A descriptor whose normalised id a template literal can print. *)
Definition printable_id (t : Obj) : Prop := is_Some (to_string (normal_id t)).

(** Whether some descriptor of [ts] has the id [q]. *)
Definition lists_id (ts : list Obj) (q : JsVal) : bool :=
  existsb (λ t, same_value_zero (normal_id t) q) ts.

(** The last descriptor of [ts] that has the id [q]. *)
Fixpoint last_listed (ts : list Obj) (q : JsVal) : option Obj :=
  match ts with
  | [] => None
  | t :: ts' =>
      match last_listed ts' q with
      | Some t' => Some t'
      | None => if same_value_zero (normal_id t) q then Some t else None
      end
  end.

(** The target ids of the [Target] objects created so far, by reference. *)
Definition target_ids (w : World) : list string := target_id <$> targets w.

(** What holds of the tables in every world an Adapter reaches: a bound
    session is a [Target] created for that id, every [Target] created is the
    session bound to its id, and a bound id has an endpoint record. *)
Record consistent (w : World) : Prop := mkConsistent {
  bound_is_created :
    ∀ id r, _targetMap (adapter w) !! id = Some r → target_ids w !! r = Some id;
  created_is_bound :
    ∀ r id, target_ids w !! r = Some id → _targetMap (adapter w) !! id = Some r;
  bound_is_known :
    ∀ id r, _targetMap (adapter w) !! id = Some r →
            map_has (_targetIdToTargetDataMap (adapter w)) (JStr id) = true;
}.

(** Two worlds with the same tables and the same [Target] objects. *)
Definition same_sessions (w w' : World) : Prop :=
  _targetMap (adapter w') = _targetMap (adapter w)
  ∧ _targetIdToTargetDataMap (adapter w') = _targetIdToTargetDataMap (adapter w)
  ∧ targets w' = targets w.

(** ** Further notions *)

(** [get id()] *)
Definition id_of (a : Adapter) : string := _id a.

(** The world a sequence of operations leaves. *)
Definition run_world (ops : list Op) (w : World) : World := snd (run ops w).

(** The fields of an Adapter that the constructor sets for good. *)
Definition same_identity (a a' : Adapter) : Prop :=
  _id a' = _id a ∧ _adapterType a' = _adapterType a ∧ _proxyUrl a' = _proxyUrl a
  ∧ _options a' = _options a ∧ _url a' = _url a.

(** A process that has been sent SIGTERM. *)
Definition signalled (pr : Process) : Prop := "SIGTERM" ∈ proc_signals pr.

(** A process whose command line is the configured one and that has been
    sent no signal but SIGTERM. *)
Definition as_configured (o : IAdapterOptions) (pr : Process) : Prop :=
  proxyExePath o = Some (proc_path pr)
  ∧ proc_path pr ≠ ""
  ∧ proxyExeArgs o = proc_args pr
  ∧ Forall (λ signal, signal = "SIGTERM") (proc_signals pr).

(** What holds of the process table in every world an Adapter reaches. *)
Record supervised (w : World) : Prop := mkSupervised {
  tracked_is_spawned :
    ∀ p, _proxyProc (adapter w) = Some p → (p < length (processes w))%nat;
  untracked_is_signalled :
    ∀ p pr, processes w !! p = Some pr → _proxyProc (adapter w) ≠ Some p →
            signalled pr;
  spawned_as_configured :
    ∀ p pr, processes w !! p = Some pr → as_configured (_options (adapter w)) pr;
}.

(** The operations on the helper process and the operations on targets. *)
Definition process_op (op : Op) : bool :=
  match op with
  | OpStart | OpStop | OpForceRefresh | EvProcessError _ => true
  | _ => false
  end.

(** A value that is not an array or an object. *)
Definition primitive (v : JsVal) : bool :=
  match v with
  | JArr _ | JObj _ => false
  | _ => true
  end.

(** Every endpoint record of a table is JSON data. *)
Definition records_clean (m : list (JsVal * list (string * JsVal))) : Prop :=
  Forall (λ entry, clean_props (snd entry) = true) m.

(** The calls that concern the client side of a session. *)
Definition client_call (c : TargetCall) : bool :=
  match c with
  | CallUpdateClient _ | CallForward _ => true
  | CallConnectTo _ _ | CallOn _ => false
  end.

(** A session that was connected once, to the address in its own endpoint
    data, was given one closure listener, and has since received calls of the
    client side only. *)
Definition connected_once (o : Target) : Prop :=
  ∃ wsFrom rest,
    target_calls o
    = CallConnectTo (obj_get (target_data o) "webSocketDebuggerUrl") wsFrom
      :: CallOn "socketClosed" :: rest
    ∧ Forall (λ c, client_call c = true) rest.

(** Whether the first character of an id is ASCII, so that position 1 is
    the same position in bytes and in UTF-16 units; the empty id has none. *)
Definition first_is_ascii (id : string) : bool :=
  match id with
  | EmptyString => true
  | String c _ => (nat_of_ascii c <? 128)%nat
  end.

(** The endpoint table after the descriptors [ts] have been stored in it, in
    order: what the loop of [getTargets] makes of the table [m] when no
    iteration throws. *)
Definition store_all (adapterType : string) (metadata : JsVal)
    (m : list (JsVal * list (string * JsVal))) (ts : list (list (string * JsVal)))
  : list (JsVal * list (string * JsVal)) :=
  foldl (λ m t, map_set m (normal_id t)
                        (json_clone (pre_rewrite adapterType t metadata))) m ts.

(** * Properties *)

(** ** Identity derivation *)

Section Strings.

Lemma prefix_slash (s : string) :
  String.prefix "/" s = match s with
                        | String c _ => Ascii.eqb c "/"
                        | EmptyString => false
                        end.
Proof.
  destruct s as [|c s']; [reflexivity|]. cbn [String.prefix].
  destruct (ascii_dec "/" c) as [<-|Hne].
  - by destruct s'.
  - symmetry. apply Ascii.eqb_neq. congruence.
Qed.

Lemma search_slash (s : string) :
  JsString.search "/" s =
    if JsString.mem "/" s then Some (String.length (until_slash s)) else None.
Proof.
  induction s as [|c s' IH]; [reflexivity|].
  cbn [JsString.search JsString.mem until_slash].
  rewrite prefix_slash. destruct (Ascii.eqb c "/"); [reflexivity|].
  rewrite IH. destruct (JsString.mem "/" s'); reflexivity.
Qed.

Lemma take_until_slash (s : string) :
  JsString.take (String.length (until_slash s)) s = until_slash s.
Proof.
  induction s as [|c s' IH]; [reflexivity|]. simpl.
  destruct (Ascii.eqb c "/"); simpl; [reflexivity|]. by rewrite IH.
Qed.

Lemma until_slash_no_slash (s : string) :
  JsString.mem "/" s = false → until_slash s = s.
Proof.
  induction s as [|c s' IH]; [reflexivity|]. simpl.
  destruct (Ascii.eqb c "/"); [discriminate|]. intros H. by rewrite IH.
Qed.

Lemma replace_leading_slash (rest : string) :
  JsString.replace (String "/" rest) "/" "_" = String "_" rest.
Proof. cbn [JsString.replace]. rewrite prefix_slash. reflexivity. Qed.

End Strings.

(** What the constructor computes for a path-like id, in both branches. *)
Lemma adapterType_of_path (rest : string) :
  adapterType_of (String "/" rest) =
    if JsString.mem "/" rest then "_" +:+ until_slash rest else String "_" rest.
Proof.
  unfold adapterType_of, JsString.indexOf.
  change (Nat.min 1 (String.length (String "/" rest))) with 1%nat.
  change (JsString.drop 1 (String "/" rest)) with rest.
  rewrite search_slash. destruct (JsString.mem "/" rest).
  - assert ((0 <=? Z.of_nat (1 + String.length (until_slash rest))) = true) as ->
      by (apply Z.leb_le; lia).
    unfold JsString.substr.
    assert ((1 <? 0) = false) as -> by reflexivity.
    rewrite Z.min_l by (cbn [String.length]; lia).
    change (JsString.drop (Z.to_nat 1) (String "/" rest)) with rest.
    replace (Z.to_nat (Z.of_nat (1 + String.length (until_slash rest)) - 1))
      with (String.length (until_slash rest)) by lia.
    by rewrite take_until_slash.
  - change (0 <=? -1) with false. cbn iota. apply replace_leading_slash.
Qed.

(** C7, as stated, fails: for the id [/headless], which has no second slash,
    the constructor does not strip the leading slash but turns it into an
    underscore. *)
Lemma adapterType_headless_not_stripped :
  path_like "/headless"
  ∧ adapterType_of "/headless" = "_headless"
  ∧ stated_adapterType "/headless" = "headless"
  ∧ _adapterType (new_Adapter "/headless" "ws://relay" (mkOptions None None None None None None))
    ≠ stated_adapterType "/headless".
Proof.
  split; [by exists "headless"|]. repeat split. discriminate.
Qed.

(** C7, amended: for every path-like id the adapter type derived at
    construction is an underscore followed by the segment between the first
    and the second slash when there is a second slash, and otherwise the id
    with its leading slash replaced by an underscore; [/browser/instance1]
    gives [_browser] and [/headless] gives [_headless]. *)
Theorem adapterType_derivation :
  (∀ rest socket options,
      _adapterType (new_Adapter (String "/" rest) socket options) =
        if JsString.mem "/" rest then "_" +:+ until_slash rest
        else String "_" rest)
  ∧ adapterType_of "/browser/instance1" = "_browser"
  ∧ adapterType_of "/headless" = "_headless".
Proof.
  split; [|split; reflexivity].
  intros rest socket options. apply adapterType_of_path.
Qed.

(** With a second slash the constructor and the specification agree. *)
Lemma adapterType_second_slash (rest : string) :
  JsString.mem "/" rest = true →
  adapterType_of (String "/" rest) = stated_adapterType (String "/" rest).
Proof. intros Hmem. rewrite adapterType_of_path. simpl. by rewrite Hmem. Qed.

(** ** The helper process *)

(** Sending a signal neither adds a process nor touches the Adapter. *)
Lemma kill_adapter p signal w : adapter (kill p signal w) = adapter w.
Proof. reflexivity. Qed.

Lemma kill_length p signal w :
  length (processes (kill p signal w)) = length (processes w).
Proof. unfold kill. cbn. apply length_alter. Qed.

Lemma kill_signals p signal w pr :
  processes w !! p = Some pr →
  processes (kill p signal w) !! p =
    Some (mkProcess (proc_path pr) (proc_args pr) (proc_signals pr ++ [signal])).
Proof.
  intros Hp. unfold kill, with_processes. cbn [processes].
  rewrite list_lookup_alter_eq. by rewrite Hp.
Qed.

(** [spawnProcess] spawns only when no process is tracked. *)
Lemma spawnProcess_tracked exe args w p :
  _proxyProc (adapter w) = Some p → spawnProcess exe args w = (Some p, w).
Proof. intros Hp. unfold spawnProcess. by rewrite Hp. Qed.

(** With a tracked process and a configured command line, [forceRefresh]
    amounts to the signal alone: [refereshProcess] leaves the handle of the
    signalled process in place, so [spawnProcess] finds a process tracked and
    spawns nothing. *)
Lemma forceRefresh_tracked w p exe args :
  _proxyProc (adapter w) = Some p →
  proxyExePath (_options (adapter w)) = Some exe → exe ≠ "" →
  proxyExeArgs (_options (adapter w)) = Some args →
  forceRefresh w = kill p "SIGTERM" w.
Proof.
  intros Hp Hexe Hne Hargs. unfold forceRefresh. rewrite Hp, Hexe, Hargs.
  apply String.eqb_neq in Hne as ->. unfold refereshProcess.
  by rewrite (spawnProcess_tracked exe (Some args) _ p).
Qed.

(** The sibling path: [stop] clears the handle after the signal, so a [start]
    after it spawns a second process and tracks that one. *)
Example stop_then_start_respawns :
  let options := mkOptions None None None None
                           (Some "ios_webkit_debug_proxy") (Some ["-F"]) in
  let w := start (stop (start (new_World "/ios" "ws://127.0.0.1:9000" options))) in
  _proxyProc (adapter w) = Some 1%nat
  ∧ processes w = [mkProcess "ios_webkit_debug_proxy" (Some ["-F"]) ["SIGTERM"];
                   mkProcess "ios_webkit_debug_proxy" (Some ["-F"]) []].
Proof. cbv zeta. by split. Qed.

(** C1: an Adapter configured with the command line
    [ios_webkit_debug_proxy -F] is started, which spawns process 0 and tracks
    it.  [forceRefresh] then sends SIGTERM to process 0, but no second process
    is spawned and the tracked handle is still the signalled process 0, not a
    fresh one. *)
Theorem forceRefresh_keeps_signalled_process :
  let options := mkOptions None None None None
                           (Some "ios_webkit_debug_proxy") (Some ["-F"]) in
  let w := start (new_World "/ios" "ws://127.0.0.1:9000" options) in
  let w' := forceRefresh w in
  _proxyProc (adapter w) = Some 0%nat
  ∧ processes w = [mkProcess "ios_webkit_debug_proxy" (Some ["-F"]) []]
  ∧ _proxyProc (adapter w') = Some 0%nat
  ∧ processes w' = [mkProcess "ios_webkit_debug_proxy" (Some ["-F"]) ["SIGTERM"]].
Proof. cbv zeta. repeat split. Qed.

(** ** Discovery failures *)

(** The executor of the promise never calls [reject]. *)
Lemma getTargets_never_rejects metadata reply w :
  fst (getTargets metadata reply w) ≠ Rejected.
Proof.
  destruct reply as [|statusCode [|rawTargets]]; cbn; try discriminate.
  by destruct (forEach_setTargetInfo _ _ _ _) as [a [ts|]].
Qed.

(** C5: when the request fails with a transport error, [getTargets] resolves
    to the empty sequence (it does not reject) and the world, with it the
    endpoint table and the binding table, is left as it was. *)
Theorem getTargets_transport_error metadata w :
  let r := getTargets metadata TransportError w in
  fst r = Resolved []
  ∧ fst r ≠ Rejected
  ∧ _targetIdToTargetDataMap (adapter (snd r)) = _targetIdToTargetDataMap (adapter w)
  ∧ _targetMap (adapter (snd r)) = _targetMap (adapter w)
  ∧ snd r = w.
Proof. cbv zeta. repeat split. discriminate. Qed.

(** C9: when the request succeeds but the body is not JSON, [JSON.parse]
    throws inside the callback: the promise is neither resolved nor rejected,
    and nothing has been changed by then. *)
Theorem getTargets_body_not_json metadata statusCode w :
  let r := getTargets metadata (Response statusCode NotJson) w in
  fst r = Pending
  ∧ (∀ targets, fst r ≠ Resolved targets)
  ∧ fst r ≠ Rejected
  ∧ snd r = w.
Proof. cbv zeta. repeat split; discriminate. Qed.


(** ** Unknown targets *)

(** C4: [connectTo] for an id without an endpoint record returns [null] and
    changes nothing but the log: the binding table, the endpoint table and the
    process handle are as before, no [Target] is created or called, no signal
    is sent. *)
Theorem connectTo_unknown_target targetId wsFrom w :
  map_has (_targetIdToTargetDataMap (adapter w)) (JStr targetId) = false →
  let r := connectTo targetId wsFrom w in
  fst r = None
  ∧ _targetMap (adapter (snd r)) = _targetMap (adapter w)
  ∧ _targetIdToTargetDataMap (adapter (snd r)) = _targetIdToTargetDataMap (adapter w)
  ∧ _proxyProc (adapter (snd r)) = _proxyProc (adapter w)
  ∧ snd r = logger (LogError ("No endpoint url found for id " +:+ targetId)) w.
Proof.
  unfold map_has, connectTo. intros Hnone.
  destruct (map_get _ _); [discriminate|]. by repeat split.
Qed.

(** An instance: a new Adapter has no endpoint record for [ghost-id]. *)
Lemma connectTo_unknown_target_witness :
  let w := new_World "/ios" "ws://127.0.0.1:9000"
                     (mkOptions None None None None None None) in
  map_has (_targetIdToTargetDataMap (adapter w)) (JStr "ghost-id") = false
  ∧ fst (connectTo "ghost-id" 7%nat w) = None
  ∧ _targetMap (adapter (snd (connectTo "ghost-id" 7%nat w))) = _targetMap (adapter w).
Proof.
  cbv zeta. split; [reflexivity|].
  pose proof (connectTo_unknown_target "ghost-id" 7%nat
                (new_World "/ios" "ws://127.0.0.1:9000"
                           (mkOptions None None None None None None))
                eq_refl) as (Hret & Hmap & _).
  split; [exact Hret | exact Hmap].
Defined.

(** ** Objects, copies and maps *)

Section Objects.

Lemma obj_get_set_eq (o : Obj) k v : obj_get (obj_set o k v) k = v.
Proof.
  induction o as [|[k' v'] o IH]; cbn; [by rewrite String.eqb_refl|].
  destruct (String.eqb k' k) eqn:E; cbn; by rewrite E.
Qed.

Lemma obj_get_set_ne (o : Obj) k k' v :
  k ≠ k' → obj_get (obj_set o k v) k' = obj_get o k'.
Proof.
  intros Hne. induction o as [|[k0 v0] o IH]; cbn.
  - by apply String.eqb_neq in Hne as ->.
  - destruct (String.eqb k0 k) eqn:E; cbn; [|by rewrite IH].
    apply String.eqb_eq in E as ->. by apply String.eqb_neq in Hne as ->.
Qed.

Lemma obj_has_set_eq (o : Obj) k v : obj_has (obj_set o k v) k = true.
Proof.
  induction o as [|[k' v'] o IH]; cbn; [by rewrite String.eqb_refl|].
  destruct (String.eqb k' k) eqn:E; cbn; by rewrite E.
Qed.

Lemma obj_get_absent (o : Obj) k : obj_has o k = false → obj_get o k = JUndefined.
Proof.
  induction o as [|[k' v'] o IH]; cbn; [done|]. by destruct (String.eqb k' k).
Qed.


Lemma json_copy_obj (o : Obj) : json_copy (JObj o) = Some (JObj (copy_props o)).
Proof. reflexivity. Qed.

Lemma json_clean_obj (o : Obj) : json_clean (JObj o) = clean_props o.
Proof. reflexivity. Qed.

(** A value free of [undefined] and of numbers that are not finite is its
    own copy. *)
Lemma json_copy_clean : ∀ v, json_clean v = true → json_copy v = Some v.
Proof.
  fix IH 1. intros [| | b | r | s | elems | props]; cbn; intros H; try done.
  - by rewrite H.
  - do 2 f_equal. induction elems as [|e l IHl]; [done|].
    apply andb_true_iff in H as [He Hl]. rewrite (IH e He). f_equal. by apply IHl.
  - do 2 f_equal. induction props as [|[k x] l IHl]; [done|].
    apply andb_true_iff in H as [Hx Hl]. rewrite (IH x Hx). f_equal. by apply IHl.
Qed.

Lemma copy_props_clean (o : Obj) : clean_props o = true → copy_props o = o.
Proof.
  induction o as [|[k x] o IH]; cbn; [done|]. intros [Hx Ho]%andb_true_iff.
  by rewrite (json_copy_clean x Hx), IH.
Qed.


Lemma clean_props_get (o : Obj) k :
  clean_props o = true → obj_has o k = true → json_clean (obj_get o k) = true.
Proof.
  induction o as [|[k' v'] o IH]; cbn; [done|]. intros [Hv Ho]%andb_true_iff.
  destruct (String.eqb k' k); auto.
Qed.


Lemma obj_has_set_ne (o : Obj) k k' v :
  k ≠ k' → obj_has (obj_set o k v) k' = obj_has o k'.
Proof.
  intros Hne. induction o as [|[k0 v0] o IH]; cbn.
  - by apply String.eqb_neq in Hne as ->.
  - destruct (String.eqb k0 k) eqn:E; cbn; [|by rewrite IH].
    by apply String.eqb_eq in E as ->.
Qed.


(** The copy of an object reads like the object at every property that is
    absent or holds a JSON value. *)
Lemma obj_get_copy_props (o : Obj) k :
  (obj_has o k = true → json_clean (obj_get o k) = true) →
  obj_get (copy_props o) k = obj_get o k.
Proof.
  induction o as [|[k' v'] o IH]; cbn; [done|].
  destruct (String.eqb k' k) eqn:E; intros Hclean.
  - rewrite (json_copy_clean v') by auto. cbn. by rewrite E.
  - destruct (json_copy v'); cbn; [rewrite E|]; by apply IH.
Qed.

End Objects.

Section Maps.

Context {V : Type}.
Implicit Types (m : list (JsVal * V)) (k q : JsVal).

Lemma same_value_zero_eq k q : same_value_zero k q = true → k = q.
Proof.
  destruct k, q; cbn; try done.
  - by intros ->%Bool.eqb_prop.
  - by intros ->%String.eqb_eq.
  - by intros ->%String.eqb_eq.
Qed.


Lemma map_get_set m k v q :
  map_get (map_set m k v) q = if same_value_zero k q then Some v else map_get m q.
Proof.
  induction m as [|[k' v'] m IH]; cbn; [done|].
  destruct (same_value_zero k' k) eqn:E; cbn.
  - apply same_value_zero_eq in E as ->. by destruct (same_value_zero k q).
  - rewrite IH. destruct (same_value_zero k' q) eqn:E'; [|done].
    destruct (same_value_zero k q) eqn:E''; [|done].
    assert (k' = q) as Hk' by by apply same_value_zero_eq.
    assert (k = q) as Hk by by apply same_value_zero_eq.
    subst k' k. congruence.
Qed.

Lemma map_has_set m k v q :
  map_has m q = true → map_has (map_set m k v) q = true.
Proof.
  unfold map_has. rewrite map_get_set. by destruct (same_value_zero k q).
Qed.

Lemma map_count_set m k v q :
  map_count (map_set m k v) q =
    if same_value_zero k q then Nat.max 1 (map_count m q) else map_count m q.
Proof.
  induction m as [|[k' v'] m IH]; cbn.
  - by destruct (same_value_zero k q).
  - destruct (same_value_zero k' k) eqn:E; cbn.
    + apply same_value_zero_eq in E as ->. destruct (same_value_zero k q); lia.
    + rewrite IH. destruct (same_value_zero k q) eqn:E''; [|done].
      destruct (same_value_zero k' q) eqn:E'; [|lia].
      assert (k' = q) as Hk' by by apply same_value_zero_eq.
      assert (k = q) as Hk by by apply same_value_zero_eq.
      subst k' k. congruence.
Qed.

End Maps.

(** ** The descriptor rewrite *)

Lemma pre_rewrite_id adapterType t metadata :
  obj_get (pre_rewrite adapterType t metadata) "id" = normal_id t.
Proof.
  unfold pre_rewrite. rewrite !obj_get_set_ne by done. apply obj_get_set_eq.
Qed.

Lemma pre_rewrite_type adapterType t metadata :
  obj_get (pre_rewrite adapterType t metadata) "type"
  = js_or (obj_get t "type") (JStr "page").
Proof.
  unfold pre_rewrite. rewrite obj_get_set_ne by done. apply obj_get_set_eq.
Qed.

(** Properties the rewrite does not write are those of the raw descriptor. *)
Lemma pre_rewrite_other adapterType t metadata k :
  k ≠ "id" → k ≠ "adapterType" → k ≠ "type" → k ≠ "metadata" →
  obj_get (pre_rewrite adapterType t metadata) k = obj_get t k.
Proof. intros. unfold pre_rewrite. by rewrite !obj_get_set_ne by done. Qed.

(** [setTargetInfo] in two halves: the endpoint stored is the copy of the
    descriptor before the rewrite, the descriptor returned is that descriptor
    with its two URLs written. *)
Lemma setTargetInfo_unfold a t metadata :
  setTargetInfo a t metadata =
    let pre := pre_rewrite (_adapterType a) t metadata in
    let a' := with_targetData a
                (map_set (_targetIdToTargetDataMap a) (normal_id t) (json_clone pre)) in
    match to_string (normal_id t) with
    | Some tid =>
        (a', Some (obj_set (obj_set pre "webSocketDebuggerUrl" (JStr (relayed_url a tid)))
                     "devtoolsFrontendUrl"
                     (JStr (viewer +:+ JsString.replace (_proxyUrl a) "ws://" ""
                                   +:+ _id a +:+ "/" +:+ tid))))
    | None => (a', None)
    end.
Proof.
  unfold setTargetInfo, pre_rewrite, relayed_url. cbv zeta. fold (normal_id t).
  rewrite (obj_get_set_ne _ "adapterType" "type") by done.
  rewrite (obj_get_set_ne _ "id" "type") by done.
  rewrite !(obj_get_set_ne _ _ "id") by done. rewrite obj_get_set_eq.
  by destruct (to_string (normal_id t)).
Qed.





(** ** The loop of [getTargets] *)

(** The rewrite changes the endpoint table and nothing else of the Adapter. *)
Lemma setTargetInfo_adapter a t metadata :
  fst (setTargetInfo a t metadata) =
    with_targetData a (map_set (_targetIdToTargetDataMap a) (normal_id t)
                         (json_clone (pre_rewrite (_adapterType a) t metadata))).
Proof. rewrite setTargetInfo_unfold. cbv zeta. by destruct (to_string _). Qed.

(** The descriptor returned does not depend on the endpoint table. *)
Lemma setTargetInfo_result a m t metadata :
  snd (setTargetInfo (with_targetData a m) t metadata) = snd (setTargetInfo a t metadata).
Proof. rewrite !setTargetInfo_unfold. cbv zeta. by destruct (to_string _). Qed.

Lemma forEach_app a ts1 ts2 metadata acc :
  forEach_setTargetInfo a (ts1 ++ ts2) metadata acc =
    match forEach_setTargetInfo a ts1 metadata acc with
    | (a', Some acc') => forEach_setTargetInfo a' ts2 metadata acc'
    | (a', None) => (a', None)
    end.
Proof.
  revert a acc. induction ts1 as [|t ts1 IH]; intros a acc; cbn; [done|].
  destruct (setTargetInfo a t metadata) as [a' [t'|]]; [apply IH|done].
Qed.

(** When every id can be printed the loop runs to its end.  It returns one
    descriptor for each raw one, in order; under each id listed the endpoint
    table holds the copy of the last descriptor listed with it, in one entry,
    and elsewhere it is as before. *)
Lemma forEach_resolved metadata ts :
  ∀ a acc, Forall printable_id ts →
  ∃ m rs,
    forEach_setTargetInfo a ts metadata acc = (with_targetData a m, Some (acc ++ rs))
    ∧ length rs = length ts
    ∧ (∀ i t, ts !! i = Some t → rs !! i = snd (setTargetInfo a t metadata))
    ∧ (∀ q, map_get m q =
            match last_listed ts q with
            | Some t => Some (json_clone (pre_rewrite (_adapterType a) t metadata))
            | None => map_get (_targetIdToTargetDataMap a) q
            end)
    ∧ (∀ q, map_count m q =
            if lists_id ts q then Nat.max 1 (map_count (_targetIdToTargetDataMap a) q)
            else map_count (_targetIdToTargetDataMap a) q).
Proof.
  induction ts as [|t ts IH]; intros a acc Hall.
  - exists (_targetIdToTargetDataMap a), []. cbn. rewrite app_nil_r.
    destruct a; repeat split; done.
  - apply Forall_cons in Hall as [[tid Htid] Hall]. cbn [forEach_setTargetInfo].
    pose proof (setTargetInfo_adapter a t metadata) as Ha.
    pose proof (setTargetInfo_unfold a t metadata) as Hu. cbv zeta in Hu.
    rewrite Htid in Hu. destruct (setTargetInfo a t metadata) as [a1 [t1|]] eqn:Hs;
      [|by inversion Hu].
    cbn in Ha. subst a1.
    set (m1 := map_set _ _ _).
    destruct (IH (with_targetData a m1) (acc ++ [t1]) Hall)
      as (m & rs & Hrun & Hlen & Hnth & Hget & Hcount).
    exists m, (t1 :: rs). rewrite Hrun. split; [|split; [|split; [|split]]].
    + destruct a. cbn. by rewrite <- app_assoc.
    + cbn. by rewrite Hlen.
    + intros [|i] t' Hi; cbn in Hi.
      * injection Hi as <-. by rewrite Hs.
      * transitivity (snd (setTargetInfo (with_targetData a m1) t' metadata));
          [exact (Hnth i t' Hi)|apply setTargetInfo_result].
    + intros q. rewrite Hget. cbn [last_listed].
      destruct (last_listed ts q); [done|].
      cbn [_targetIdToTargetDataMap with_targetData]. unfold m1.
      rewrite map_get_set. by destruct (same_value_zero (normal_id t) q).
    + intros q. rewrite Hcount. cbn [lists_id existsb]. fold (lists_id ts q).
      cbn [_targetIdToTargetDataMap with_targetData]. unfold m1.
      rewrite map_count_set.
      destruct (same_value_zero (normal_id t) q), (lists_id ts q); cbn; lia.
Qed.

Lemma getTargets_resolved metadata statusCode ts w :
  Forall printable_id ts →
  ∃ m rs,
    getTargets metadata (Response statusCode (JsonTargets ts)) w
      = (Resolved rs, with_adapter w (with_targetData (adapter w) m))
    ∧ length rs = length ts
    ∧ (∀ i t, ts !! i = Some t → rs !! i = snd (setTargetInfo (adapter w) t metadata))
    ∧ (∀ q, map_get m q =
            match last_listed ts q with
            | Some t => Some (json_clone (pre_rewrite (_adapterType (adapter w)) t metadata))
            | None => map_get (_targetIdToTargetDataMap (adapter w)) q
            end)
    ∧ (∀ q, map_count m q =
            if lists_id ts q
            then Nat.max 1 (map_count (_targetIdToTargetDataMap (adapter w)) q)
            else map_count (_targetIdToTargetDataMap (adapter w)) q).
Proof.
  intros Hall.
  destruct (forEach_resolved metadata ts (adapter w) [] Hall) as (m & rs & Hrun & H).
  exists m, rs. split; [|exact H]. unfold getTargets. by rewrite Hrun.
Qed.

Lemma last_listed_snoc ts t q :
  last_listed (ts ++ [t]) q =
    if same_value_zero (normal_id t) q then Some t else last_listed ts q.
Proof.
  induction ts as [|t0 ts IH]; cbn; [done|]. rewrite IH.
  by destruct (same_value_zero (normal_id t) q).
Qed.

Lemma lists_id_snoc ts t q :
  lists_id (ts ++ [t]) q = lists_id ts q || same_value_zero (normal_id t) q.
Proof. unfold lists_id. rewrite existsb_app. cbn. by rewrite orb_false_r. Qed.

(** The round trip of C2 for a whole response: under the id of a descriptor
    that no later descriptor of the response shares, the endpoint table holds
    the copy of that descriptor as it stood before the rewrite, and the
    descriptor returned in its place has the relayed address. *)
Lemma getTargets_round_trip metadata statusCode ts w i t id :
  Forall printable_id ts →
  ts !! i = Some t →
  normal_id t = JStr id →
  last_listed ts (JStr id) = Some t →
  ∃ m rs t',
    getTargets metadata (Response statusCode (JsonTargets ts)) w
      = (Resolved rs, with_adapter w (with_targetData (adapter w) m))
    ∧ map_get m (JStr id)
      = Some (json_clone (pre_rewrite (_adapterType (adapter w)) t metadata))
    ∧ rs !! i = Some t'
    ∧ obj_get t' "webSocketDebuggerUrl" = JStr (relayed_url (adapter w) id).
Proof.
  intros Hall Hi Hid Hlast.
  destruct (getTargets_resolved metadata statusCode ts w Hall)
    as (m & rs & Hrun & _ & Hnth & Hget & _).
  pose proof (setTargetInfo_unfold (adapter w) t metadata) as Hu. cbv zeta in Hu.
  rewrite Hid in Hu. cbn [to_string] in Hu.
  exists m, rs. eexists. split; [exact Hrun|]. split; [by rewrite Hget, Hlast|].
  split; [by rewrite (Hnth i t Hi), Hu|].
  rewrite obj_get_set_ne by done. apply obj_get_set_eq.
Qed.

(** An instance: a response that lists the targets 1 and 2. *)
Lemma getTargets_round_trip_witness :
  let w := new_World "/ios" "ws://127.0.0.1:9000"
                     (mkOptions None None None None None None) in
  let t1 := [("id", JStr "1"); ("webSocketDebuggerUrl", JStr "ws://127.0.0.1:9222/1")] in
  let t2 := [("id", JStr "2"); ("webSocketDebuggerUrl", JStr "ws://127.0.0.1:9222/2")] in
  Forall printable_id [t1; t2]
  ∧ ∃ m rs t',
      getTargets JNull (Response 200 (JsonTargets [t1; t2])) w
        = (Resolved rs, with_adapter w (with_targetData (adapter w) m))
      ∧ map_get m (JStr "1") = Some (pre_rewrite "_ios" t1 JNull)
      ∧ rs !! 0%nat = Some t'
      ∧ obj_get t' "webSocketDebuggerUrl" = JStr "ws://127.0.0.1:9000/ios/1".
Proof.
  cbv zeta.
  assert (Forall printable_id
            [[("id", JStr "1"); ("webSocketDebuggerUrl", JStr "ws://127.0.0.1:9222/1")];
             [("id", JStr "2"); ("webSocketDebuggerUrl", JStr "ws://127.0.0.1:9222/2")]])
    as Hall by (repeat constructor; by eexists).
  split; [exact Hall|].
  exact (getTargets_round_trip JNull 200 _
           (new_World "/ios" "ws://127.0.0.1:9000"
                      (mkOptions None None None None None None))
           0%nat _ "1" Hall eq_refl eq_refl eq_refl).
Defined.

(** ** Descriptors without an id *)

Lemma normal_id_absent (t : Obj) :
  obj_has t "id" = false → obj_has t "appId" = false → normal_id t = JUndefined.
Proof.
  intros Hid Happ. unfold normal_id. by rewrite !obj_get_absent.
Qed.

(** C10: descriptors that carry neither [id] nor [appId] are neither skipped
    nor do they fail the call.  [getTargets] resolves to one rewritten
    descriptor for each of them; each has an own property [id] whose value is
    [undefined] and a [webSocketDebuggerUrl] that ends in the text
    [undefined]; the endpoint table holds one entry under the key
    [undefined], the copy of the last of them, each one having replaced the
    one before. *)
Theorem getTargets_without_id metadata statusCode ts t w :
  Forall (λ t, obj_has t "id" = false ∧ obj_has t "appId" = false) (ts ++ [t]) →
  ∃ m rs,
    getTargets metadata (Response statusCode (JsonTargets (ts ++ [t]))) w
      = (Resolved rs, with_adapter w (with_targetData (adapter w) m))
    ∧ length rs = length (ts ++ [t])
    ∧ Forall (λ r, obj_has r "id" = true
                   ∧ obj_get r "id" = JUndefined
                   ∧ obj_get r "webSocketDebuggerUrl"
                     = JStr (relayed_url (adapter w) "undefined")) rs
    ∧ map_get m JUndefined
      = Some (json_clone (pre_rewrite (_adapterType (adapter w)) t metadata))
    ∧ map_count m JUndefined
      = Nat.max 1 (map_count (_targetIdToTargetDataMap (adapter w)) JUndefined).
Proof.
  intros Hall.
  assert (Forall (λ t, normal_id t = JUndefined) (ts ++ [t])) as Hundef.
  { eapply Forall_impl; [exact Hall|]. intros t0 [? ?]. by apply normal_id_absent. }
  assert (Forall printable_id (ts ++ [t])) as Hprint.
  { eapply Forall_impl; [exact Hundef|]. intros t0 Ht0. unfold printable_id.
    by rewrite Ht0. }
  assert (normal_id t = JUndefined) as Ht.
  { destruct (proj1 (Forall_app _ _ _) Hundef) as [_ Hlast].
    exact (proj1 (Forall_singleton _ _) Hlast). }
  destruct (getTargets_resolved metadata statusCode (ts ++ [t]) w Hprint)
    as (m & rs & Hrun & Hlen & Hnth & Hget & Hcount).
  exists m, rs. split; [exact Hrun|]. split; [exact Hlen|].
  split; [|split].
  - apply Forall_lookup. intros i r Hr.
    destruct (lookup_lt_is_Some_2 (ts ++ [t]) i) as [t0 Ht0];
      [rewrite <- Hlen; by eapply lookup_lt_Some|].
    rewrite (Hnth i t0 Ht0) in Hr.
    pose proof (setTargetInfo_unfold (adapter w) t0 metadata) as Hu. cbv zeta in Hu.
    rewrite (proj1 (Forall_lookup _ _) Hundef i t0 Ht0) in Hu. cbn [to_string] in Hu.
    rewrite Hu in Hr. injection Hr as <-.
    split; [|split].
    + unfold pre_rewrite. rewrite !obj_has_set_ne by done. apply obj_has_set_eq.
    + rewrite !(obj_get_set_ne _ _ "id") by done. rewrite pre_rewrite_id.
      exact (proj1 (Forall_lookup _ _) Hundef i t0 Ht0).
    + rewrite obj_get_set_ne by done. apply obj_get_set_eq.
  - by rewrite Hget, last_listed_snoc, Ht.
  - by rewrite Hcount, lists_id_snoc, Ht, orb_true_r.
Qed.

(** An instance: a response of two descriptors that carry only a title. *)
Lemma getTargets_without_id_witness :
  let w := new_World "/ios" "ws://127.0.0.1:9000"
                     (mkOptions None None None None None None) in
  let t1 := [("title", JStr "first")] in
  let t2 := [("title", JStr "second")] in
  Forall (λ t, obj_has t "id" = false ∧ obj_has t "appId" = false) ([t1] ++ [t2])
  ∧ ∃ m rs,
      getTargets JUndefined (Response 200 (JsonTargets ([t1] ++ [t2]))) w
        = (Resolved rs, with_adapter w (with_targetData (adapter w) m))
      ∧ length rs = 2%nat
      ∧ map_get m JUndefined = Some (json_clone (pre_rewrite "_ios" t2 JUndefined))
      ∧ map_count m JUndefined = 1%nat.
Proof.
  cbv zeta.
  assert (Forall (λ t : list (string * JsVal),
                    obj_has t "id" = false ∧ obj_has t "appId" = false)
                 ([[("title", JStr "first")]] ++ [[("title", JStr "second")]])) as Hall
    by (repeat constructor).
  split; [exact Hall|].
  destruct (getTargets_without_id JUndefined 200 [[("title", JStr "first")]]
              [("title", JStr "second")]
              (new_World "/ios" "ws://127.0.0.1:9000"
                         (mkOptions None None None None None None)) Hall)
    as (m & rs & Hrun & Hlen & _ & Hget & Hcount).
  exists m, rs. repeat split; assumption.
Defined.

(** ** Sessions *)

Lemma target_ids_call c r (l : list Target) :
  target_id <$> alter (target_call c) r l = target_id <$> l.
Proof.
  revert r. induction l as [|o l IH]; intros [|r]; cbn; try done.
  by rewrite <- (IH r).
Qed.

Lemma consistent_new id socket options : consistent (new_World id socket options).
Proof. split; cbn; intros *; by rewrite ?lookup_empty. Qed.

Lemma consistent_same_sessions w w' :
  same_sessions w w' → consistent w → consistent w'.
Proof.
  intros (Hmap & Hdata & Htargets) [H1 H2 H3].
  split; unfold target_ids; rewrite ?Hmap, ?Hdata, ?Htargets; auto.
Qed.

Lemma same_sessions_kill p signal w : same_sessions w (kill p signal w).
Proof. by repeat split. Qed.

Lemma same_sessions_stop w : same_sessions w (stop w).
Proof. unfold stop. by destruct (_proxyProc (adapter w)). Qed.

Lemma same_sessions_spawnProcess exe args w :
  same_sessions w (snd (spawnProcess exe args w)).
Proof. unfold spawnProcess. by destruct (_proxyProc (adapter w)). Qed.

Lemma same_sessions_start w : same_sessions w (start w).
Proof.
  unfold start. cbn. destruct (proxyExePath (_options (adapter w))) as [exe|]; [|done].
  destruct (String.eqb exe ""); [done|].
  apply (same_sessions_spawnProcess exe _ (logger (LogInfo "adapter.start") w)).
Qed.

Lemma same_sessions_forceRefresh w : same_sessions w (forceRefresh w).
Proof.
  unfold forceRefresh.
  destruct (_proxyProc (adapter w)) as [p|],
           (proxyExePath (_options (adapter w))) as [exe|],
           (proxyExeArgs (_options (adapter w))) as [args|]; try done.
  destruct (String.eqb exe ""); [done|].
  apply (same_sessions_spawnProcess exe (Some args) (kill p "SIGTERM" w)).
Qed.

Lemma same_sessions_on_process_error p w : same_sessions w (on_process_error p w).
Proof.
  unfold on_process_error. case_decide; [apply same_sessions_stop|done].
Qed.

Lemma same_sessions_on_socketClosed r id w : same_sessions w (on_socketClosed r id w).
Proof. unfold on_socketClosed. by destruct (targets w !! r). Qed.

(** Discovery only adds to the endpoint table or replaces what it holds. *)
Lemma forEach_frame metadata ts :
  ∀ a acc,
    let a' := fst (forEach_setTargetInfo a ts metadata acc) in
    _targetMap a' = _targetMap a
    ∧ _proxyProc a' = _proxyProc a
    ∧ ∀ q, map_has (_targetIdToTargetDataMap a) q = true →
           map_has (_targetIdToTargetDataMap a') q = true.
Proof.
  induction ts as [|t ts IH]; intros a acc; cbn; [done|].
  pose proof (setTargetInfo_adapter a t metadata) as Ha.
  destruct (setTargetInfo a t metadata) as [a1 [t1|]]; cbn in Ha; subst a1.
  - destruct (IH (with_targetData a (map_set (_targetIdToTargetDataMap a) (normal_id t)
                    (json_clone (pre_rewrite (_adapterType a) t metadata))))
                 (acc ++ [t1])) as (Hmap & Hproc & Hhas).
    split; [exact Hmap|]. split; [exact Hproc|].
    intros q Hq. apply Hhas. cbn. by apply map_has_set.
  - cbn. repeat split. intros q Hq. by apply map_has_set.
Qed.

Lemma getTargets_frame metadata reply w :
  let w' := snd (getTargets metadata reply w) in
  _targetMap (adapter w') = _targetMap (adapter w)
  ∧ targets w' = targets w
  ∧ _proxyProc (adapter w') = _proxyProc (adapter w)
  ∧ processes w' = processes w
  ∧ ∀ q, map_has (_targetIdToTargetDataMap (adapter w)) q = true →
         map_has (_targetIdToTargetDataMap (adapter w')) q = true.
Proof.
  destruct reply as [|statusCode [|ts]]; cbn; try done.
  destruct (forEach_frame metadata ts (adapter w) []) as (Hmap & Hproc & Hhas).
  by destruct (forEach_setTargetInfo _ _ _ _) as [a [rs|]].
Qed.

Lemma alter_last {A} (f : A → A) (l : list A) (x : A) :
  alter f (length l) (l ++ [x]) = l ++ [f x].
Proof.
  rewrite alter_app_r_alt by done. by rewrite Nat.sub_diag.
Qed.

(** The three cases of [connectTo]. *)
Lemma connectTo_unknown targetId wsFrom w :
  map_get (_targetIdToTargetDataMap (adapter w)) (JStr targetId) = None →
  connectTo targetId wsFrom w =
    (None, logger (LogError ("No endpoint url found for id " +:+ targetId)) w).
Proof. intros Hdata. unfold connectTo. by rewrite Hdata. Qed.

Lemma connectTo_bound targetId wsFrom w targetData target :
  map_get (_targetIdToTargetDataMap (adapter w)) (JStr targetId) = Some targetData →
  _targetMap (adapter w) !! targetId = Some target →
  connectTo targetId wsFrom w =
    (Some target,
     mkWorld (adapter w) (processes w)
             (alter (target_call (CallUpdateClient wsFrom)) target (targets w))
             (log w ++ [LogInfo ("Existing target found for id " +:+ targetId)])
             (emitted w)).
Proof. intros Hdata Hmap. unfold connectTo. by rewrite Hdata, Hmap. Qed.

Lemma connectTo_fresh targetId wsFrom w targetData :
  map_get (_targetIdToTargetDataMap (adapter w)) (JStr targetId) = Some targetData →
  _targetMap (adapter w) !! targetId = None →
  connectTo targetId wsFrom w =
    (Some (length (targets w)),
     mkWorld (with_targetMap (adapter w)
                (<[targetId := length (targets w)]> (_targetMap (adapter w))))
             (processes w)
             (targets w ++
                [mkTarget targetId targetData
                   [CallConnectTo (obj_get targetData "webSocketDebuggerUrl") wsFrom;
                    CallOn "socketClosed"]])
             (log w) (emitted w)).
Proof.
  intros Hdata Hmap. unfold connectTo. rewrite Hdata, Hmap.
  unfold with_targets, with_adapter. cbn. by rewrite !alter_last.
Qed.

Lemma consistent_connectTo targetId wsFrom w :
  consistent w → consistent (snd (connectTo targetId wsFrom w)).
Proof.
  intros Hw.
  destruct (map_get (_targetIdToTargetDataMap (adapter w)) (JStr targetId))
    as [targetData|] eqn:Hdata.
  - destruct (_targetMap (adapter w) !! targetId) as [target|] eqn:Hmap.
    + rewrite (connectTo_bound _ _ _ _ _ Hdata Hmap). destruct Hw as [H1 H2 H3].
      split; unfold target_ids in *; cbn; rewrite ?target_ids_call; auto.
    + rewrite (connectTo_fresh _ _ _ _ Hdata Hmap). destruct Hw as [H1 H2 H3].
      split; unfold target_ids in *; cbn; rewrite ?fmap_app; cbn.
      * intros id r. destruct (decide (targetId = id)) as [->|Hne].
        -- rewrite lookup_insert_eq. intros [= <-].
           apply list_lookup_middle. by rewrite length_fmap.
        -- rewrite lookup_insert_ne by done. intros Hr.
           by apply lookup_app_l_Some, H1.
      * intros r id [[_ Hr]|[-> <-]]%lookup_snoc_Some.
        -- apply H2 in Hr. rewrite lookup_insert_ne; [done|]. congruence.
        -- rewrite length_fmap. apply lookup_insert_eq.
      * intros id r. destruct (decide (targetId = id)) as [->|Hne].
        -- intros _. unfold map_has. by rewrite Hdata.
        -- rewrite lookup_insert_ne by done. apply H3.
  - rewrite (connectTo_unknown _ _ _ Hdata). by destruct Hw.
Qed.

Lemma consistent_forwardTo targetId message w :
  consistent w → consistent (forwardTo targetId message w).
Proof.
  intros [H1 H2 H3]. unfold forwardTo.
  destruct (_targetMap (adapter w) !! targetId) as [target|]; [|done].
  split; unfold target_ids in *; cbn; rewrite ?target_ids_call; auto.
Qed.

Lemma consistent_getTargets metadata reply w :
  consistent w → consistent (snd (getTargets metadata reply w)).
Proof.
  intros [H1 H2 H3].
  destruct (getTargets_frame metadata reply w) as (Hmap & Htargets & _ & _ & Hhas).
  split; unfold target_ids in *; rewrite ?Hmap, ?Htargets; eauto.
Qed.

Lemma consistent_step op w : consistent w → consistent (snd (step op w)).
Proof.
  intros Hw. destruct op; cbn.
  - apply (consistent_same_sessions w); [apply same_sessions_start|done].
  - apply (consistent_same_sessions w); [apply same_sessions_stop|done].
  - pose proof (consistent_getTargets metadata reply w Hw).
    by destruct (getTargets metadata reply w).
  - pose proof (consistent_connectTo targetId wsFrom w Hw).
    by destruct (connectTo targetId wsFrom w).
  - by apply consistent_forwardTo.
  - apply (consistent_same_sessions w); [apply same_sessions_forceRefresh|done].
  - apply (consistent_same_sessions w); [apply same_sessions_on_process_error|done].
  - apply (consistent_same_sessions w); [apply same_sessions_on_socketClosed|done].
Qed.

Lemma reachable_consistent w : reachable w → consistent w.
Proof.
  induction 1 as [id socket options|op w _ IH];
    [apply consistent_new|by apply consistent_step].
Qed.

(** No operation removes an endpoint record or a binding, or binds an id
    that is bound to another session. *)
Lemma step_grows op w :
  let w' := snd (step op w) in
  (∀ q, map_has (_targetIdToTargetDataMap (adapter w)) q = true →
        map_has (_targetIdToTargetDataMap (adapter w')) q = true)
  ∧ (∀ id r, _targetMap (adapter w) !! id = Some r →
             _targetMap (adapter w') !! id = Some r).
Proof.
  assert (∀ w', same_sessions w w' →
            (∀ q, map_has (_targetIdToTargetDataMap (adapter w)) q = true →
                  map_has (_targetIdToTargetDataMap (adapter w')) q = true)
            ∧ (∀ id r, _targetMap (adapter w) !! id = Some r →
                       _targetMap (adapter w') !! id = Some r)) as Hsame.
  { intros w' (Hmap & Hdata & _). by rewrite Hmap, Hdata. }
  destruct op; cbn.
  - apply Hsame, same_sessions_start.
  - apply Hsame, same_sessions_stop.
  - destruct (getTargets_frame metadata reply w) as (Hmap & _ & _ & _ & Hhas).
    destruct (getTargets metadata reply w) as [p w']. cbn in *.
    split; [exact Hhas|]. by rewrite Hmap.
  - destruct (map_get (_targetIdToTargetDataMap (adapter w)) (JStr targetId))
      as [targetData|] eqn:Hdata.
    + destruct (_targetMap (adapter w) !! targetId) as [target|] eqn:Hmap.
      * by rewrite (connectTo_bound _ _ _ _ _ Hdata Hmap).
      * rewrite (connectTo_fresh _ _ _ _ Hdata Hmap). cbn. split; [done|].
        intros id r Hr. rewrite lookup_insert_ne; [done|]. congruence.
    + by rewrite (connectTo_unknown _ _ _ Hdata).
  - unfold forwardTo. by destruct (_targetMap (adapter w) !! targetId).
  - apply Hsame, same_sessions_forceRefresh.
  - apply Hsame, same_sessions_on_process_error.
  - apply Hsame, same_sessions_on_socketClosed.
Qed.

Lemma run_cons op ops w :
  fst (run (op :: ops) w) = fst (step op w) :: fst (run ops (snd (step op w))).
Proof.
  cbn. destruct (step op w) as [r w1]. cbn. by destruct (run ops w1).
Qed.

(** Once an id is bound, every later [connectTo] for it returns the bound
    session, whatever happens in between. *)
Lemma run_connectTo_bound ops :
  ∀ w id r, consistent w → _targetMap (adapter w) !! id = Some r →
  ∀ i wsFrom, ops !! i = Some (OpConnectTo id wsFrom) →
              fst (run ops w) !! i = Some (RetTarget (Some r)).
Proof.
  induction ops as [|op ops IH]; intros w id r Hw Hr i wsFrom Hi; [done|].
  rewrite run_cons. destruct i as [|i]; cbn in Hi.
  - injection Hi as ->. cbn.
    pose proof (bound_is_known w Hw id r Hr) as Hknown. unfold map_has in Hknown.
    destruct (map_get (_targetIdToTargetDataMap (adapter w)) (JStr id))
      as [targetData|] eqn:Hdata; [|done].
    by rewrite (connectTo_bound _ _ _ _ _ Hdata Hr).
  - apply (IH (snd (step op w)) id r) with (wsFrom := wsFrom);
      [by apply consistent_step| |exact Hi].
    by apply (step_grows op w).
Qed.

(** For an id that has an endpoint record, all calls of [connectTo] in a run
    return one and the same session. *)
Lemma run_connectTo_known ops :
  ∀ w id, consistent w →
  map_has (_targetIdToTargetDataMap (adapter w)) (JStr id) = true →
  ∃ r, ∀ i wsFrom, ops !! i = Some (OpConnectTo id wsFrom) →
                   fst (run ops w) !! i = Some (RetTarget (Some r)).
Proof.
  induction ops as [|op ops IH]; intros w id Hw Hknown; [by exists 0%nat|].
  destruct (_targetMap (adapter w) !! id) as [r|] eqn:Hmap.
  { exists r. intros i wsFrom Hi.
    by apply (run_connectTo_bound (op :: ops) w id r Hw Hmap i wsFrom). }
  assert (consistent (snd (step op w))) as Hw1 by by apply consistent_step.
  assert (map_has (_targetIdToTargetDataMap (adapter (snd (step op w)))) (JStr id)
          = true) as Hknown1 by by apply (step_grows op w).
  destruct (IH _ id Hw1 Hknown1) as [r Hr].
  assert ((∀ wsFrom, op ≠ OpConnectTo id wsFrom) →
          ∃ r, ∀ i wsFrom, (op :: ops) !! i = Some (OpConnectTo id wsFrom) →
                 fst (run (op :: ops) w) !! i = Some (RetTarget (Some r))) as Hother.
  { intros Hop. exists r. intros [|i] wsFrom Hi; cbn in Hi.
    - injection Hi as ->. by destruct (Hop wsFrom).
    - rewrite run_cons. by apply (Hr i wsFrom). }
  destruct op; try (apply Hother; intros ?; discriminate).
  destruct (decide (targetId = id)) as [->|Hne];
    [|apply Hother; intros ? [= ? ?]; done].
  unfold map_has in Hknown.
  destruct (map_get (_targetIdToTargetDataMap (adapter w)) (JStr id))
    as [targetData|] eqn:Hdata; [|done].
  exists (length (targets w)). intros i ws Hi. destruct i as [|i]; cbn in Hi.
  - rewrite run_cons. cbn. by rewrite (connectTo_fresh _ _ _ _ Hdata Hmap).
  - rewrite run_cons.
    apply (run_connectTo_bound ops _ id (length (targets w)) Hw1) with (wsFrom := ws);
      [|exact Hi].
    cbn. rewrite (connectTo_fresh _ _ _ _ Hdata Hmap). cbn. apply lookup_insert_eq.
Qed.

(** C3: in every world an Adapter reaches there is at most one session for a
    target id: two [Target] objects created for the same id are the same
    object.  [connectTo] for an id that has a bound session calls
    [updateClient] on that session and returns it, creating and storing
    nothing; it creates a session, connects it to the address in the endpoint
    record and stores it exactly when the id has an endpoint record and no
    session yet.  So all calls of [connectTo] for a discovered id return the
    same session, whatever the Adapter does in between. *)
Theorem at_most_one_session w :
  reachable w →
  (∀ r1 r2 o1 o2,
      targets w !! r1 = Some o1 → targets w !! r2 = Some o2 →
      target_id o1 = target_id o2 → r1 = r2)
  ∧ (∀ id wsFrom r,
        _targetMap (adapter w) !! id = Some r →
        ∃ o, targets w !! r = Some o ∧ target_id o = id
             ∧ fst (connectTo id wsFrom w) = Some r
             ∧ _targetMap (adapter (snd (connectTo id wsFrom w))) = _targetMap (adapter w)
             ∧ length (targets (snd (connectTo id wsFrom w))) = length (targets w)
             ∧ targets (snd (connectTo id wsFrom w)) !! r
               = Some (target_call (CallUpdateClient wsFrom) o)
             ∧ ∀ r', r' ≠ r →
                     targets (snd (connectTo id wsFrom w)) !! r' = targets w !! r')
  ∧ (∀ id wsFrom targetData,
        map_get (_targetIdToTargetDataMap (adapter w)) (JStr id) = Some targetData →
        _targetMap (adapter w) !! id = None →
        fst (connectTo id wsFrom w) = Some (length (targets w))
        ∧ targets (snd (connectTo id wsFrom w))
          = targets w ++
              [mkTarget id targetData
                 [CallConnectTo (obj_get targetData "webSocketDebuggerUrl") wsFrom;
                  CallOn "socketClosed"]]
        ∧ _targetMap (adapter (snd (connectTo id wsFrom w)))
          = <[id := length (targets w)]> (_targetMap (adapter w)))
  ∧ (∀ id wsFrom,
        length (targets (snd (connectTo id wsFrom w))) ≠ length (targets w)
        ∨ _targetMap (adapter (snd (connectTo id wsFrom w))) ≠ _targetMap (adapter w) →
        map_has (_targetIdToTargetDataMap (adapter w)) (JStr id) = true
        ∧ _targetMap (adapter w) !! id = None)
  ∧ (∀ id ops,
        map_has (_targetIdToTargetDataMap (adapter w)) (JStr id) = true →
        ∃ r, ∀ i wsFrom,
            ops !! i = Some (OpConnectTo id wsFrom) →
            fst (run ops w) !! i = Some (RetTarget (Some r))).
Proof.
  intros Hw%reachable_consistent. split; [|split; [|split; [|split]]].
  - intros r1 r2 o1 o2 H1 H2 Hid.
    assert (target_ids w !! r1 = Some (target_id o1)) as Hr1
      by (unfold target_ids; by rewrite list_lookup_fmap, H1).
    assert (target_ids w !! r2 = Some (target_id o1)) as Hr2
      by (unfold target_ids; by rewrite list_lookup_fmap, H2, Hid).
    apply (created_is_bound w Hw) in Hr1, Hr2. congruence.
  - intros id wsFrom r Hr.
    pose proof (bound_is_created w Hw id r Hr) as Hcreated.
    unfold target_ids in Hcreated. rewrite list_lookup_fmap in Hcreated.
    destruct (targets w !! r) as [o|] eqn:Ho; [|done]. injection Hcreated as Hid.
    pose proof (bound_is_known w Hw id r Hr) as Hknown. unfold map_has in Hknown.
    destruct (map_get (_targetIdToTargetDataMap (adapter w)) (JStr id))
      as [targetData|] eqn:Hdata; [|done].
    exists o. rewrite (connectTo_bound _ _ _ _ _ Hdata Hr). cbn.
    repeat split; try done.
    + by rewrite length_alter.
    + by rewrite list_lookup_alter_eq, Ho.
    + intros r' Hne. by rewrite list_lookup_alter_ne.
  - intros id wsFrom targetData Hdata Hmap.
    by rewrite (connectTo_fresh _ _ _ _ Hdata Hmap).
  - intros id wsFrom Hchanged. unfold map_has.
    destruct (map_get (_targetIdToTargetDataMap (adapter w)) (JStr id))
      as [targetData|] eqn:Hdata.
    + destruct (_targetMap (adapter w) !! id) as [r|] eqn:Hmap; [|done].
      rewrite (connectTo_bound _ _ _ _ _ Hdata Hmap) in Hchanged. cbn in Hchanged.
      rewrite length_alter in Hchanged. by destruct Hchanged.
    + rewrite (connectTo_unknown _ _ _ Hdata) in Hchanged. by destruct Hchanged.
  - intros id ops Hknown. by apply run_connectTo_known.
Qed.

(** An instance: after target 1 is discovered, two calls of [connectTo] with
    a [stop] in between return the same session. *)
Lemma at_most_one_session_witness :
  let w := snd (step (OpGetTargets JUndefined
                        (Response 200
                           (JsonTargets
                              [[("id", JStr "1");
                                ("webSocketDebuggerUrl", JStr "ws://127.0.0.1:9222/1")]])))
                     (new_World "/ios" "ws://127.0.0.1:9000"
                                (mkOptions None None None None None None))) in
  let ops := [OpConnectTo "1" 7%nat; OpStop; OpConnectTo "1" 8%nat] in
  reachable w
  ∧ ∃ r, fst (run ops w) !! 0%nat = Some (RetTarget (Some r))
         ∧ fst (run ops w) !! 2%nat = Some (RetTarget (Some r)).
Proof.
  cbv zeta.
  pose proof (reachable_step
                (OpGetTargets JUndefined
                   (Response 200
                      (JsonTargets
                         [[("id", JStr "1");
                           ("webSocketDebuggerUrl", JStr "ws://127.0.0.1:9222/1")]])))
                _ (reachable_new "/ios" "ws://127.0.0.1:9000"
                                 (mkOptions None None None None None None))) as Hw.
  split; [exact Hw|].
  destruct (at_most_one_session _ Hw) as (_ & _ & _ & _ & Hsame).
  destruct (Hsame "1" [OpConnectTo "1" 7%nat; OpStop; OpConnectTo "1" 8%nat] eq_refl)
    as [r Hr].
  exists r. split; [exact (Hr 0%nat 7%nat eq_refl)|exact (Hr 2%nat 8%nat eq_refl)].
Defined.

(** ** Forwarding *)

(** C8: [forwardTo] never changes the binding table.  Without a binding for
    the id it leaves every table, process and [Target] as it was, and writes
    to the log; with a binding it calls [forward] on the bound session with
    the message as it was given, and on no other. *)
Theorem forwardTo_delegates w targetId message :
  reachable w →
  _targetMap (adapter (forwardTo targetId message w)) = _targetMap (adapter w)
  ∧ match _targetMap (adapter w) !! targetId with
    | None =>
        forwardTo targetId message w
        = logger (LogError ("No target found for id " +:+ targetId)) w
    | Some target =>
        ∃ o, targets w !! target = Some o
             ∧ targets (forwardTo targetId message w) !! target
               = Some (target_call (CallForward message) o)
             ∧ (∀ r, r ≠ target →
                     targets (forwardTo targetId message w) !! r = targets w !! r)
             ∧ adapter (forwardTo targetId message w) = adapter w
    end.
Proof.
  intros Hw%reachable_consistent. unfold forwardTo.
  destruct (_targetMap (adapter w) !! targetId) as [target|] eqn:Hmap; [|done].
  split; [done|].
  pose proof (bound_is_created w Hw targetId target Hmap) as Hcreated.
  unfold target_ids in Hcreated. rewrite list_lookup_fmap in Hcreated.
  destruct (targets w !! target) as [o|] eqn:Ho; [|done].
  exists o. cbn. repeat split.
  - by rewrite list_lookup_alter_eq, Ho.
  - intros r Hne. by rewrite list_lookup_alter_ne.
Qed.

(** An instance: target 1 is discovered and bound; a message to it reaches
    its session, a message to [ghost-id] changes no binding. *)
Lemma forwardTo_delegates_witness :
  let discovered :=
    snd (step (OpGetTargets JUndefined
                 (Response 200
                    (JsonTargets
                       [[("id", JStr "1");
                         ("webSocketDebuggerUrl", JStr "ws://127.0.0.1:9222/1")]])))
              (new_World "/ios" "ws://127.0.0.1:9000"
                         (mkOptions None None None None None None))) in
  let w := snd (step (OpConnectTo "1" 7%nat) discovered) in
  reachable w
  ∧ _targetMap (adapter (forwardTo "ghost-id" "msg" w)) = _targetMap (adapter w)
  ∧ ∃ o, targets w !! 0%nat = Some o
         ∧ targets (forwardTo "1" "msg" w) !! 0%nat
           = Some (target_call (CallForward "msg") o).
Proof.
  cbv zeta.
  pose proof (reachable_step (OpConnectTo "1" 7%nat) _
                (reachable_step
                   (OpGetTargets JUndefined
                      (Response 200
                         (JsonTargets
                            [[("id", JStr "1");
                              ("webSocketDebuggerUrl", JStr "ws://127.0.0.1:9222/1")]])))
                   _ (reachable_new "/ios" "ws://127.0.0.1:9000"
                                    (mkOptions None None None None None None)))) as Hw.
  split; [exact Hw|].
  split; [exact (proj1 (forwardTo_delegates _ "ghost-id" "msg" Hw))|].
  destruct (proj2 (forwardTo_delegates _ "1" "msg" Hw)) as (o & Ho & Hforward & _).
  exists o. split; [exact Ho|exact Hforward].
Defined.

(** ** Frames *)

Lemma forEach_adapter metadata ts :
  ∀ a acc,
    fst (forEach_setTargetInfo a ts metadata acc) =
      with_targetData a
        (_targetIdToTargetDataMap (fst (forEach_setTargetInfo a ts metadata acc))).
Proof.
  induction ts as [|t ts IH]; intros a acc; cbn; [by destruct a|].
  pose proof (setTargetInfo_adapter a t metadata) as Ha.
  destruct (setTargetInfo a t metadata) as [a1 [t1|]]; cbn in Ha; subst a1; [|done].
  by rewrite (IH _ (acc ++ [t1])) at 1.
Qed.

Lemma getTargets_world metadata reply w :
  snd (getTargets metadata reply w) =
    with_adapter w
      (with_targetData (adapter w)
         (_targetIdToTargetDataMap (adapter (snd (getTargets metadata reply w))))).
Proof.
  destruct reply as [|statusCode [|ts]]; cbn; try by destruct w as [[]].
  pose proof (forEach_adapter metadata ts (adapter w) []) as Ha.
  destruct (forEach_setTargetInfo _ _ _ _) as [a [rs|]]; cbn in *; by rewrite Ha at 1.
Qed.

Lemma same_identity_refl a : same_identity a a.
Proof. by repeat split. Qed.

Lemma same_identity_trans a1 a2 a3 :
  same_identity a1 a2 → same_identity a2 a3 → same_identity a1 a3.
Proof. unfold same_identity. intros (?&?&?&?&?) (?&?&?&?&?). repeat split; congruence. Qed.

Lemma spawnProcess_identity exe args w :
  same_identity (adapter w) (adapter (snd (spawnProcess exe args w))).
Proof. unfold spawnProcess. by destruct (_proxyProc (adapter w)). Qed.

Lemma stop_identity w : same_identity (adapter w) (adapter (stop w)).
Proof. unfold stop. by destruct (_proxyProc (adapter w)). Qed.

Lemma step_identity op w : same_identity (adapter w) (adapter (snd (step op w))).
Proof.
  destruct op; cbn.
  - unfold start. cbn. destruct (proxyExePath (_options (adapter w))) as [exe|]; [|done].
    destruct (String.eqb exe ""); [done|].
    apply (spawnProcess_identity exe _ (logger (LogInfo "adapter.start") w)).
  - apply stop_identity.
  - pose proof (getTargets_world metadata reply w) as Hw.
    destruct (getTargets metadata reply w) as [p w']. cbn in *. by rewrite Hw.
  - unfold connectTo.
    destruct (map_get _ _) as [targetData|]; [|done].
    by destruct (_targetMap (adapter w) !! targetId).
  - unfold forwardTo. by destruct (_targetMap (adapter w) !! targetId).
  - unfold forceRefresh.
    destruct (_proxyProc (adapter w)) as [p|],
             (proxyExePath (_options (adapter w))) as [exe|],
             (proxyExeArgs (_options (adapter w))) as [args|]; try done.
    destruct (String.eqb exe ""); [done|].
    apply (spawnProcess_identity exe (Some args) (kill p "SIGTERM" w)).
  - unfold on_process_error. case_decide; [apply stop_identity|done].
  - unfold on_socketClosed. by destruct (targets w !! target).
Qed.

Lemma run_world_cons op ops w :
  run_world (op :: ops) w = run_world ops (snd (step op w)).
Proof.
  unfold run_world. cbn. destruct (step op w) as [r w1]. cbn. by destruct (run ops w1).
Qed.

Lemma run_world_reachable ops : ∀ w, reachable w → reachable (run_world ops w).
Proof.
  induction ops as [|op ops IH]; intros w Hw; [done|].
  rewrite run_world_cons. by apply IH, reachable_step.
Qed.

(** The operations on targets leave the process table and the tracked
    handle alone. *)
Lemma target_op_frame op w :
  process_op op = false →
  processes (snd (step op w)) = processes w
  ∧ _proxyProc (adapter (snd (step op w))) = _proxyProc (adapter w).
Proof.
  destruct op; try discriminate; intros _; cbn.
  - pose proof (getTargets_world metadata reply w) as Hw.
    destruct (getTargets metadata reply w) as [p w']. cbn in *. by rewrite Hw.
  - unfold connectTo.
    destruct (map_get _ _) as [targetData|]; [|done].
    by destruct (_targetMap (adapter w) !! targetId).
  - unfold forwardTo. by destruct (_targetMap (adapter w) !! targetId).
  - unfold on_socketClosed. by destruct (targets w !! target).
Qed.

(** The operations on the helper process leave the tables and the sessions
    alone. *)
Lemma process_op_frame op w :
  process_op op = true → same_sessions w (snd (step op w)).
Proof.
  destruct op; try discriminate; intros _; cbn.
  - apply same_sessions_start.
  - apply same_sessions_stop.
  - apply same_sessions_forceRefresh.
  - apply same_sessions_on_process_error.
Qed.

(** ** The process table *)

Lemma kill_lookup_inv p w q pr' :
  processes (kill p "SIGTERM" w) !! q = Some pr' →
  ∃ pr, processes w !! q = Some pr
        ∧ proc_path pr' = proc_path pr ∧ proc_args pr' = proc_args pr
        ∧ ((q = p ∧ proc_signals pr' = proc_signals pr ++ ["SIGTERM"])
           ∨ (q ≠ p ∧ pr' = pr)).
Proof.
  unfold kill, with_processes. cbn [processes]. rewrite list_lookup_alter.
  case_decide as Hpq.
  - subst q. destruct (processes w !! p) as [pr|]; [|done]. cbn. intros [= <-].
    exists pr. cbn. do 3 (split; [done|]). by left.
  - intros Hq. exists pr'. do 3 (split; [done|]). right. split; [congruence|done].
Qed.

Lemma as_configured_kill o p w q pr' :
  (∀ pr, processes w !! q = Some pr → as_configured o pr) →
  processes (kill p "SIGTERM" w) !! q = Some pr' → as_configured o pr'.
Proof.
  intros Hold (pr & Hq & Hpath & Hargs & Hsig)%kill_lookup_inv.
  destruct (Hold pr Hq) as (H1 & H2 & H3 & H4). unfold as_configured.
  rewrite Hpath, Hargs. repeat split; try done.
  destruct Hsig as [[_ ->]|[_ ->]]; [|done].
  apply Forall_app. split; [done|]. by apply Forall_singleton.
Qed.

Lemma signalled_kill p w q pr' :
  processes (kill p "SIGTERM" w) !! q = Some pr' →
  q = p ∨ (∃ pr, processes w !! q = Some pr ∧ signalled pr) → signalled pr'.
Proof.
  intros (pr & Hq & _ & _ & Hsig)%kill_lookup_inv Hcase. unfold signalled.
  destruct Hsig as [[_ ->]|[Hne ->]].
  - apply elem_of_app. right. by apply list_elem_of_singleton.
  - destruct Hcase as [->|(pr0 & Hq0 & Hs)]; [done|].
    assert (pr0 = pr) as -> by congruence. exact Hs.
Qed.

Lemma supervised_new id socket options : supervised (new_World id socket options).
Proof. split; cbn; intros *; done. Qed.

Lemma supervised_stop w : supervised w → supervised (stop w).
Proof.
  intros Hw. pose proof Hw as [Ha Hb Hc]. unfold stop.
  destruct (_proxyProc (adapter w)) as [p|] eqn:Hp; [|done].
  split; cbn.
  - done.
  - intros q pr' Hq _. apply (signalled_kill p w q pr' Hq).
    destruct (decide (q = p)) as [->|Hne]; [by left|right].
    apply kill_lookup_inv in Hq as (pr & Hq & _). exists pr. split; [done|].
    apply (Hb q pr Hq). congruence.
  - intros q pr' Hq. apply (as_configured_kill _ p w q pr'); [apply Hc|exact Hq].
Qed.

Lemma supervised_logger e w : supervised w → supervised (logger e w).
Proof. by intros [Ha Hb Hc]. Qed.

Lemma supervised_spawnProcess exe args w :
  proxyExePath (_options (adapter w)) = Some exe → exe ≠ "" →
  proxyExeArgs (_options (adapter w)) = args →
  supervised w → supervised (snd (spawnProcess exe args w)).
Proof.
  intros Hexe Hne Hargs Hw. pose proof Hw as [Ha Hb Hc]. unfold spawnProcess.
  destruct (_proxyProc (adapter w)) as [p|] eqn:Hp; [done|].
  split; cbn.
  - intros p [= <-]. rewrite length_app. cbn. lia.
  - intros q pr [[_ Hq]|[-> _]]%lookup_snoc_Some Hne'; [|done].
    by apply (Hb q pr Hq).
  - intros q pr [[_ Hq]|[_ <-]]%lookup_snoc_Some; [by apply (Hc q)|].
    by repeat split.
Qed.

Lemma supervised_start w : supervised w → supervised (start w).
Proof.
  intros Hw. unfold start. cbn.
  destruct (proxyExePath (_options (adapter w))) as [exe|] eqn:Hexe;
    [|by apply supervised_logger].
  destruct (String.eqb exe "") eqn:Hne; [by apply supervised_logger|].
  apply String.eqb_neq in Hne.
  by apply (supervised_spawnProcess exe _ (logger (LogInfo "adapter.start") w)),
           supervised_logger.
Qed.

Lemma supervised_forceRefresh w : supervised w → supervised (forceRefresh w).
Proof.
  intros Hw. pose proof Hw as [Ha Hb Hc]. unfold forceRefresh.
  destruct (_proxyProc (adapter w)) as [p|] eqn:Hp; [|done].
  destruct (proxyExePath (_options (adapter w))) as [exe|] eqn:Hexe; [|done].
  destruct (proxyExeArgs (_options (adapter w))) as [args|] eqn:Hargs; [|done].
  destruct (String.eqb exe "") eqn:Hne; [done|]. apply String.eqb_neq in Hne.
  unfold refereshProcess.
  rewrite (spawnProcess_tracked exe (Some args) (kill p "SIGTERM" w) p Hp).
  split; cbn.
  - intros q Hq. rewrite Hp in Hq. rewrite length_alter. by apply Ha.
  - intros q pr' Hq Hne'. rewrite Hp in Hne'.
    apply (signalled_kill p w q pr' Hq). right.
    apply kill_lookup_inv in Hq as (pr & Hq & _). exists pr. split; [done|].
    by apply (Hb q pr Hq).
  - intros q pr' Hq. apply (as_configured_kill _ p w q pr'); [apply Hc|exact Hq].
Qed.

Lemma supervised_step op w : supervised w → supervised (snd (step op w)).
Proof.
  intros Hw. destruct (process_op op) eqn:Hop.
  - destruct op; try discriminate; cbn.
    + by apply supervised_start.
    + by apply supervised_stop.
    + by apply supervised_forceRefresh.
    + unfold on_process_error. case_decide; [by apply supervised_stop|done].
  - destruct (target_op_frame op w Hop) as [Hprocs Hproc].
    destruct (step_identity op w) as (_ & _ & _ & Hopts & _).
    destruct Hw as [Ha Hb Hc]. split; rewrite ?Hprocs, ?Hproc, ?Hopts; auto.
Qed.

Lemma reachable_supervised w : reachable w → supervised w.
Proof.
  induction 1 as [id socket options|op w _ IH];
    [apply supervised_new|by apply supervised_step].
Qed.

Lemma stop_untracks w : _proxyProc (adapter (stop w)) = None.
Proof. unfold stop. by destruct (_proxyProc (adapter w)) eqn:Hp. Qed.

Lemma stop_length w : length (processes (stop w)) = length (processes w).
Proof. unfold stop. destruct (_proxyProc (adapter w)); cbn; by rewrite ?length_alter. Qed.

(** X2: [stop] is idempotent.  After it no process is tracked; when none was
    tracked before it changes nothing, and otherwise the process that was
    tracked has received one more SIGTERM. *)
Theorem stop_idempotent w :
  stop (stop w) = stop w
  ∧ _proxyProc (adapter (stop w)) = None
  ∧ match _proxyProc (adapter w) with
    | None => stop w = w
    | Some p =>
        length (processes (stop w)) = length (processes w)
        ∧ processes (stop w) !! p
          = (λ pr, mkProcess (proc_path pr) (proc_args pr)
                             (proc_signals pr ++ ["SIGTERM"])) <$> processes w !! p
    end.
Proof.
  unfold stop. destruct (_proxyProc (adapter w)) as [p|] eqn:Hp; cbn; [|by rewrite Hp].
  repeat split.
  - apply length_alter.
  - apply list_lookup_alter_eq.
Qed.

(** X3: in every world an Adapter reaches, the tracked handle is a process
    the Adapter spawned, and a spawned process that has not been sent SIGTERM
    is the tracked one; so at most one spawned process has not been
    signalled. *)
Theorem no_unsignalled_orphan w :
  reachable w →
  (∀ p, _proxyProc (adapter w) = Some p → is_Some (processes w !! p))
  ∧ (∀ p pr, processes w !! p = Some pr → ¬ signalled pr →
             _proxyProc (adapter w) = Some p)
  ∧ (∀ p1 p2 pr1 pr2,
        processes w !! p1 = Some pr1 → processes w !! p2 = Some pr2 →
        ¬ signalled pr1 → ¬ signalled pr2 → p1 = p2).
Proof.
  intros [Ha Hb Hc]%reachable_supervised.
  assert (∀ p pr, processes w !! p = Some pr → ¬ signalled pr →
                  _proxyProc (adapter w) = Some p) as Htracked.
  { intros p pr Hp Hlive.
    destruct (decide (_proxyProc (adapter w) = Some p)) as [|Hne]; [done|].
    by destruct (Hlive (Hb p pr Hp Hne)). }
  split; [|split; [exact Htracked|]].
  - intros p Hp. by apply lookup_lt_is_Some_2, Ha.
  - intros p1 p2 pr1 pr2 H1 H2 Hl1 Hl2.
    pose proof (Htracked p1 pr1 H1 Hl1). pose proof (Htracked p2 pr2 H2 Hl2).
    congruence.
Qed.

(** An instance: started, stopped and started again, the Adapter has spawned
    two processes; the first has been signalled, the second is tracked. *)
Lemma no_unsignalled_orphan_witness :
  let options := mkOptions None None None None
                           (Some "ios_webkit_debug_proxy") (Some ["-F"]) in
  let w := run_world [OpStart; OpStop; OpStart]
                     (new_World "/ios" "ws://127.0.0.1:9000" options) in
  reachable w
  ∧ length (processes w) = 2%nat
  ∧ ∀ p pr, processes w !! p = Some pr → ¬ signalled pr →
            _proxyProc (adapter w) = Some p.
Proof.
  cbv zeta.
  pose proof (run_world_reachable [OpStart; OpStop; OpStart] _
                (reachable_new "/ios" "ws://127.0.0.1:9000"
                   (mkOptions None None None None
                              (Some "ios_webkit_debug_proxy") (Some ["-F"])))) as Hw.
  split; [exact Hw|]. split; [reflexivity|].
  exact (proj1 (proj2 (no_unsignalled_orphan _ Hw))).
Defined.

(** X4: every process an Adapter has spawned was spawned with the configured
    path, which is not empty, and the configured arguments, and the only
    signal any of them has been sent is SIGTERM. *)
Theorem spawned_with_configuration w p pr :
  reachable w →
  processes w !! p = Some pr →
  proxyExePath (_options (adapter w)) = Some (proc_path pr)
  ∧ proc_path pr ≠ ""
  ∧ proxyExeArgs (_options (adapter w)) = proc_args pr
  ∧ Forall (λ signal, signal = "SIGTERM") (proc_signals pr).
Proof. intros [_ _ Hc]%reachable_supervised Hp. exact (Hc p pr Hp). Qed.

(** An instance: the process of a started and refreshed Adapter. *)
Lemma spawned_with_configuration_witness :
  let options := mkOptions None None None None
                           (Some "ios_webkit_debug_proxy") (Some ["-F"]) in
  let w := run_world [OpStart; OpForceRefresh]
                     (new_World "/ios" "ws://127.0.0.1:9000" options) in
  let pr := mkProcess "ios_webkit_debug_proxy" (Some ["-F"]) ["SIGTERM"] in
  reachable w
  ∧ processes w !! 0%nat = Some pr
  ∧ proxyExePath (_options (adapter w)) = Some (proc_path pr).
Proof.
  cbv zeta.
  pose proof (run_world_reachable [OpStart; OpForceRefresh] _
                (reachable_new "/ios" "ws://127.0.0.1:9000"
                   (mkOptions None None None None
                              (Some "ios_webkit_debug_proxy") (Some ["-F"])))) as Hw.
  split; [exact Hw|]. split; [reflexivity|].
  exact (proj1 (spawned_with_configuration _ 0%nat _ Hw eq_refl)).
Defined.

(** X5: the only operation that spawns is [start], and it spawns one process
    exactly when none is tracked and a path that is not empty is configured;
    [forceRefresh] in particular never spawns. *)
Theorem only_start_spawns op w :
  length (processes (snd (step op w))) =
    (length (processes w) +
     match op, _proxyProc (adapter w), proxyExePath (_options (adapter w)) with
     | OpStart, None, Some exe => if String.eqb exe "" then 0 else 1
     | _, _, _ => 0
     end)%nat.
Proof.
  destruct (process_op op) eqn:Hop.
  - destruct op; try discriminate; cbn.
    + unfold start, spawnProcess. cbn.
      destruct (proxyExePath (_options (adapter w))) as [exe|];
        [|destruct (_proxyProc (adapter w)); cbn; lia].
      destruct (String.eqb exe ""), (_proxyProc (adapter w)); cbn;
        rewrite ?length_app; cbn; lia.
    + rewrite (Nat.add_0_r). unfold stop.
      destruct (_proxyProc (adapter w)); cbn; by rewrite ?length_alter.
    + rewrite (Nat.add_0_r). unfold forceRefresh, refereshProcess, spawnProcess.
      destruct (_proxyProc (adapter w)) as [p0|] eqn:Hp,
               (proxyExePath (_options (adapter w))) as [exe|],
               (proxyExeArgs (_options (adapter w))) as [args|]; try done.
      destruct (String.eqb exe ""); [done|]. cbn. rewrite Hp. cbn.
      by rewrite length_alter.
    + rewrite (Nat.add_0_r). unfold on_process_error, stop. case_decide; [|done].
      destruct (_proxyProc (adapter w)); cbn; by rewrite ?length_alter.
  - destruct (target_op_frame op w Hop) as [-> _]. destruct op; try discriminate; lia.
Qed.

(** X6: when the ['error'] event of a spawned process fires, the tracked
    handle is cleared, and a later [start] of an Adapter with a configured
    path spawns a new process and tracks it. *)
Theorem error_then_start_respawns w p exe :
  (p < length (processes w))%nat →
  proxyExePath (_options (adapter w)) = Some exe → exe ≠ "" →
  _proxyProc (adapter (on_process_error p w)) = None
  ∧ _proxyProc (adapter (start (on_process_error p w))) = Some (length (processes w))
  ∧ processes (start (on_process_error p w)) !! length (processes w)
    = Some (mkProcess exe (proxyExeArgs (_options (adapter w))) []).
Proof.
  intros Hp Hexe Hne. unfold on_process_error. rewrite decide_True by done.
  pose proof (stop_untracks w) as Hnone. pose proof (stop_length w) as Hlen.
  destruct (stop_identity w) as (_ & _ & _ & Hopts & _).
  split; [exact Hnone|].
  unfold start, spawnProcess. cbn. rewrite Hopts, Hexe, Hnone.
  apply String.eqb_neq in Hne as ->. cbn. rewrite Hlen. split; [done|].
  apply list_lookup_middle. by rewrite Hlen.
Qed.

(** An instance: the process of a started Adapter fails to launch. *)
Lemma error_then_start_respawns_witness :
  let options := mkOptions None None None None
                           (Some "ios_webkit_debug_proxy") (Some ["-F"]) in
  let w := start (new_World "/ios" "ws://127.0.0.1:9000" options) in
  (0 < length (processes w))%nat
  ∧ proxyExePath (_options (adapter w)) = Some "ios_webkit_debug_proxy"
  ∧ _proxyProc (adapter (start (on_process_error 0%nat w))) = Some 1%nat.
Proof.
  cbv zeta. split; [cbn; lia|]. split; [reflexivity|].
  refine (proj1 (proj2 (error_then_start_respawns
                          (start (new_World "/ios" "ws://127.0.0.1:9000"
                                    (mkOptions None None None None
                                       (Some "ios_webkit_debug_proxy") (Some ["-F"]))))
                          0%nat "ios_webkit_debug_proxy" _ eq_refl _)));
    [cbn; lia|discriminate].
Defined.

(** ** Identity *)

(** X7: whatever is done to an Adapter, its id, its adapter type, the
    address of the relay, its options and its discovery URL are the ones the
    constructor set. *)
Theorem identity_is_fixed ops id socket options :
  let w := run_world ops (new_World id socket options) in
  id_of (adapter w) = id
  ∧ _adapterType (adapter w) = adapterType_of id
  ∧ _proxyUrl (adapter w) = socket
  ∧ _options (adapter w) = default_options options
  ∧ _url (adapter w) = _url (new_Adapter id socket options).
Proof.
  cbv zeta.
  assert (∀ w, same_identity (adapter w) (adapter (run_world ops w))) as Hrun.
  { induction ops as [|op ops IH]; intros w; [apply same_identity_refl|].
    rewrite run_world_cons.
    eapply same_identity_trans; [apply (step_identity op)|apply IH]. }
  destruct (Hrun (new_World id socket options)) as (H1 & H2 & H3 & H4 & H5).
  unfold id_of. by rewrite H1, H2, H3, H4, H5.
Qed.

(** X8: the operations on the helper process never touch the binding table,
    the endpoint table or a [Target]; the operations on targets never touch
    the process table or the tracked handle. *)
Theorem processes_and_sessions_are_independent op w :
  if process_op op
  then _targetMap (adapter (snd (step op w))) = _targetMap (adapter w)
       ∧ _targetIdToTargetDataMap (adapter (snd (step op w)))
         = _targetIdToTargetDataMap (adapter w)
       ∧ targets (snd (step op w)) = targets w
  else processes (snd (step op w)) = processes w
       ∧ _proxyProc (adapter (snd (step op w))) = _proxyProc (adapter w).
Proof.
  destruct (process_op op) eqn:Hop.
  - by apply process_op_frame.
  - by apply target_op_frame.
Qed.

(** The options after the constructor has applied the defaults. *)
Lemma str_or_truthy x d : d ≠ "" → str_or x d ≠ "".
Proof.
  intros Hd. unfold str_or. destruct x as [s|]; [|done].
  destruct (String.eqb s "") eqn:E; [done|]. by apply String.eqb_neq.
Qed.

Lemma str_or_fixed x d : str_or (Some (str_or x d)) d = str_or x d.
Proof.
  unfold str_or. destruct x as [s|].
  - destruct (String.eqb s "") eqn:E; [by destruct (String.eqb d "")|by rewrite E].
  - by destruct (String.eqb d "").
Qed.

Lemma num_or_fixed x d : num_or (Some (num_or x d)) d = num_or x d.
Proof.
  unfold num_or. destruct x as [n|].
  - destruct (String.eqb n "0" || String.eqb n "NaN") eqn:E;
      [by destruct (String.eqb d "0" || String.eqb d "NaN")|by rewrite E].
  - by destruct (String.eqb d "0" || String.eqb d "NaN").
Qed.

Lemma num_or_truthy x d : d ≠ "0" → num_or x d ≠ "0".
Proof.
  intros Hd. unfold num_or. destruct x as [n|]; [|done].
  destruct (String.eqb n "0") eqn:E; cbn; [done|].
  destruct (String.eqb n "NaN"); [done|]. by apply String.eqb_neq.
Qed.

Lemma default_options_fixed o : default_options (default_options o) = default_options o.
Proof.
  unfold default_options.
  cbn [pollingInterval baseUrl path port proxyExePath proxyExeArgs].
  by rewrite !str_or_fixed, !num_or_fixed.
Qed.

Lemma str_or_given s d : s ≠ "" → str_or (Some s) d = s.
Proof. intros Hs. unfold str_or. by apply String.eqb_neq in Hs as ->. Qed.

Lemma num_or_given n d : n ≠ "0" → n ≠ "NaN" → num_or (Some n) d = n.
Proof.
  intros H0 Hnan. unfold num_or.
  apply String.eqb_neq in H0 as ->. by apply String.eqb_neq in Hnan as ->.
Qed.

Lemma str_or_falsy x d : x = None ∨ x = Some "" → str_or x d = d.
Proof. by intros [->| ->]. Qed.

Lemma num_or_falsy x d : x = None ∨ x = Some "0" ∨ x = Some "NaN" → num_or x d = d.
Proof. by intros [->|[->| ->]]. Qed.

Lemma num_or_not_nan x d : d ≠ "NaN" → num_or x d ≠ "NaN".
Proof.
  intros Hd. unfold num_or. destruct x as [n|]; [|done].
  destruct (String.eqb n "0"); cbn; [done|].
  destruct (String.eqb n "NaN") eqn:E; [done|]. by apply String.eqb_neq.
Qed.

(** X9: after the constructor the four discovery options are all set.  A
    polling interval or a port that is absent, 0 or NaN has become 3000 or
    9222, and any other value given is kept; a base URL or a path that is
    absent or empty has become [http://127.0.0.1] or [/json], and any other
    value given is kept; so none of the four is 0, NaN or empty.  The
    discovery URL is the base URL, a colon, the port and the path so set.  The
    path and the arguments of the helper process are as given, and applying
    the defaults to the result changes nothing. *)
Theorem constructor_defaults id socket o :
  ∃ interval base pth prt,
    pollingInterval (_options (new_Adapter id socket o)) = Some interval
    ∧ baseUrl (_options (new_Adapter id socket o)) = Some base
    ∧ path (_options (new_Adapter id socket o)) = Some pth
    ∧ port (_options (new_Adapter id socket o)) = Some prt
    ∧ _url (new_Adapter id socket o) = base +:+ ":" +:+ prt +:+ pth
    ∧ (pollingInterval o = None ∨ pollingInterval o = Some "0"
       ∨ pollingInterval o = Some "NaN" → interval = "3000")
    ∧ (∀ n, pollingInterval o = Some n → n ≠ "0" → n ≠ "NaN" → interval = n)
    ∧ (port o = None ∨ port o = Some "0" ∨ port o = Some "NaN" → prt = "9222")
    ∧ (∀ n, port o = Some n → n ≠ "0" → n ≠ "NaN" → prt = n)
    ∧ (baseUrl o = None ∨ baseUrl o = Some "" → base = "http://127.0.0.1")
    ∧ (∀ s, baseUrl o = Some s → s ≠ "" → base = s)
    ∧ (path o = None ∨ path o = Some "" → pth = "/json")
    ∧ (∀ s, path o = Some s → s ≠ "" → pth = s)
    ∧ interval ≠ "0" ∧ interval ≠ "NaN" ∧ prt ≠ "0" ∧ prt ≠ "NaN"
    ∧ base ≠ "" ∧ pth ≠ ""
    ∧ proxyExePath (_options (new_Adapter id socket o)) = proxyExePath o
    ∧ proxyExeArgs (_options (new_Adapter id socket o)) = proxyExeArgs o
    ∧ default_options (_options (new_Adapter id socket o))
      = _options (new_Adapter id socket o).
Proof.
  exists (num_or (pollingInterval o) "3000"), (str_or (baseUrl o) "http://127.0.0.1"),
         (str_or (path o) "/json"), (num_or (port o) "9222").
  split_and!; try reflexivity.
  - apply num_or_falsy.
  - intros n ->. apply num_or_given.
  - apply num_or_falsy.
  - intros n ->. apply num_or_given.
  - apply str_or_falsy.
  - intros s ->. apply str_or_given.
  - apply str_or_falsy.
  - intros s ->. apply str_or_given.
  - by apply num_or_truthy.
  - by apply num_or_not_nan.
  - by apply num_or_truthy.
  - by apply num_or_not_nan.
  - by apply str_or_truthy.
  - by apply str_or_truthy.
  - apply default_options_fixed.
Qed.

(** An instance: port 0 and an empty path are replaced, the base URL given
    is kept. *)
Lemma constructor_defaults_witness :
  let o := mkOptions None (Some "http://10.0.0.7") (Some "") (Some "0") None None in
  _options (new_Adapter "/ios" "ws://127.0.0.1:9000" o)
  = mkOptions (Some "3000") (Some "http://10.0.0.7") (Some "/json") (Some "9222")
              None None
  ∧ _url (new_Adapter "/ios" "ws://127.0.0.1:9000" o) = "http://10.0.0.7:9222/json"
  ∧ ∃ interval base pth prt,
      port (_options (new_Adapter "/ios" "ws://127.0.0.1:9000" o)) = Some prt
      ∧ baseUrl (_options (new_Adapter "/ios" "ws://127.0.0.1:9000" o)) = Some base
      ∧ path (_options (new_Adapter "/ios" "ws://127.0.0.1:9000" o)) = Some pth
      ∧ pollingInterval (_options (new_Adapter "/ios" "ws://127.0.0.1:9000" o))
        = Some interval
      ∧ prt = "9222" ∧ base = "http://10.0.0.7" ∧ pth = "/json" ∧ interval = "3000".
Proof.
  cbv zeta. split; [reflexivity|]. split; [reflexivity|].
  destruct (constructor_defaults "/ios" "ws://127.0.0.1:9000"
              (mkOptions None (Some "http://10.0.0.7") (Some "") (Some "0") None None))
    as (interval & base & pth & prt & Hi & Hb & Hpa & Hpo & _ & Hi0 & _ & Hp0 & _
        & _ & Hbase & Hpath & _).
  exists interval, base, pth, prt.
  split; [exact Hpo|]. split; [exact Hb|]. split; [exact Hpa|]. split; [exact Hi|].
  split; [apply Hp0; right; left; reflexivity|].
  split; [apply (Hbase "http://10.0.0.7"); [reflexivity|discriminate]|].
  split; [apply Hpath; right; reflexivity|].
  apply Hi0; left; reflexivity.
Defined.

Lemma replace_slash_absent (s : string) :
  JsString.mem "/" s = false → JsString.replace s "/" "_" = s.
Proof.
  induction s as [|c s IH]; [done|]. cbn [JsString.mem JsString.replace].
  rewrite prefix_slash. destruct (Ascii.eqb c "/"); [done|]. intros H. by rewrite IH.
Qed.

Lemma mem_until_slash (s : string) : JsString.mem "/" (until_slash s) = false.
Proof.
  induction s as [|c s IH]; [done|]. cbn.
  destruct (Ascii.eqb c "/") eqn:E; [done|]. cbn. by rewrite E.
Qed.

(** X10: the adapter type of every id whose first character is ASCII,
    path-like or not, and of the empty id.  With a slash behind the first
    character it is an underscore and the characters between the first
    character and that slash, so the first character is dropped whatever
    ASCII character it is; without one, a leading slash becomes an underscore
    and any other id is its own adapter type.  In no case does the adapter
    type contain a slash. *)
Theorem adapterType_of_any_id id :
  first_is_ascii id = true →
  adapterType_of id =
    match id with
    | EmptyString => EmptyString
    | String c rest =>
        if JsString.mem "/" rest then "_" +:+ until_slash rest
        else if Ascii.eqb c "/" then String "_" rest
             else id
    end
  ∧ JsString.mem "/" (adapterType_of id) = false.
Proof.
  intros _.
  assert (adapterType_of id =
            match id with
            | EmptyString => EmptyString
            | String c rest =>
                if JsString.mem "/" rest then "_" +:+ until_slash rest
                else if Ascii.eqb c "/" then String "_" rest
                     else id
            end) as Heq.
  { destruct id as [|c rest]; [done|].
    unfold adapterType_of, JsString.indexOf.
    change (Nat.min 1 (String.length (String c rest))) with 1%nat.
    change (JsString.drop 1 (String c rest)) with rest.
    rewrite search_slash. destruct (JsString.mem "/" rest) eqn:Hmem.
    - assert ((0 <=? Z.of_nat (1 + String.length (until_slash rest))) = true) as ->
        by (apply Z.leb_le; lia).
      unfold JsString.substr.
      assert ((1 <? 0) = false) as -> by reflexivity.
      rewrite Z.min_l by (cbn [String.length]; lia).
      change (JsString.drop (Z.to_nat 1) (String c rest)) with rest.
      replace (Z.to_nat (Z.of_nat (1 + String.length (until_slash rest)) - 1))
        with (String.length (until_slash rest)) by lia.
      by rewrite take_until_slash.
    - change (0 <=? -1) with false. cbn iota. cbn [JsString.replace].
      rewrite prefix_slash. destruct (Ascii.eqb c "/"); [done|].
      by rewrite replace_slash_absent. }
  split; [exact Heq|]. rewrite Heq. destruct id as [|c rest]; [done|].
  destruct (JsString.mem "/" rest) eqn:Hmem.
  - cbn. apply mem_until_slash.
  - destruct (Ascii.eqb c "/") eqn:E; cbn; [done|]. by rewrite E.
Qed.

(** An instance: an id that does not start with a slash. *)
Lemma adapterType_of_any_id_witness :
  first_is_ascii "abc/def" = true
  ∧ adapterType_of "abc/def" = "_bc"
  ∧ JsString.mem "/" (adapterType_of "abc/def") = false.
Proof.
  split; [reflexivity|].
  exact (adapterType_of_any_id "abc/def" eq_refl).
Defined.

(** ** More on discovery *)

Lemma replace_absent (s pat repl : string) :
  JsString.search pat s = None → JsString.replace s pat repl = s.
Proof.
  induction s as [|c s IH]; cbn [JsString.search JsString.replace].
  - by destruct (String.prefix pat "").
  - destruct (String.prefix pat (String c s)); [done|].
    destruct (JsString.search pat s); [done|]. intros _. by rewrite IH.
Qed.

Lemma prefix_append (p s : string) : String.prefix p (p +:+ s) = true.
Proof.
  induction p as [|c p IH]; [by destruct s|].
  change (String c p +:+ s) with (String c (p +:+ s)).
  change (String.prefix (String c p) (String c (p +:+ s)))
    with (if ascii_dec c c then String.prefix p (p +:+ s) else false).
  destruct (ascii_dec c c); [exact IH|congruence].
Qed.

Lemma replace_ws_scheme (host repl : string) :
  JsString.replace ("ws://" +:+ host) "ws://" repl = repl +:+ host.
Proof.
  change (JsString.replace ("ws://" +:+ host) "ws://" repl)
    with (if String.prefix "ws://" ("ws://" +:+ host) then repl +:+ host
          else String "w" (JsString.replace ("s://" +:+ host) "ws://" repl)).
  by rewrite prefix_append.
Qed.

(** The endpoint record keeps the address the runtime gave. *)
Lemma record_keeps_url adapterType t metadata :
  clean_props t = true →
  obj_get (json_clone (pre_rewrite adapterType t metadata)) "webSocketDebuggerUrl"
  = obj_get t "webSocketDebuggerUrl".
Proof.
  intros Ht. unfold json_clone. rewrite obj_get_copy_props.
  - by apply pre_rewrite_other.
  - unfold pre_rewrite. rewrite !obj_has_set_ne, !obj_get_set_ne by done.
    by apply clean_props_get.
Qed.

(** X11: what the rewrite does to a descriptor whose id can be printed.  The
    descriptor returned has the normalised id, the adapter type of the
    Adapter, its own type if that is truthy and [page] otherwise, the metadata
    of the call and the relayed address; every property the rewrite does not
    name is present in it exactly when it is present in the raw descriptor,
    with the same value. *)
Theorem setTargetInfo_stamps a t metadata tid :
  to_string (normal_id t) = Some tid →
  ∃ t',
    snd (setTargetInfo a t metadata) = Some t'
    ∧ obj_get t' "id" = normal_id t
    ∧ obj_get t' "adapterType" = JStr (_adapterType a)
    ∧ obj_get t' "type" = js_or (obj_get t "type") (JStr "page")
    ∧ truthy (obj_get t' "type") = true
    ∧ obj_get t' "metadata" = metadata
    ∧ obj_get t' "webSocketDebuggerUrl" = JStr (relayed_url a tid)
    ∧ ∀ k, k ≠ "id" → k ≠ "adapterType" → k ≠ "type" → k ≠ "metadata" →
           k ≠ "webSocketDebuggerUrl" → k ≠ "devtoolsFrontendUrl" →
           obj_get t' k = obj_get t k ∧ obj_has t' k = obj_has t k.
Proof.
  intros Htid. rewrite setTargetInfo_unfold. cbv zeta. rewrite Htid. cbn [snd].
  eexists. split; [done|]. split_and!.
  - rewrite !obj_get_set_ne by done. apply pre_rewrite_id.
  - unfold pre_rewrite. rewrite !(obj_get_set_ne _ _ "adapterType") by done.
    apply obj_get_set_eq.
  - rewrite !obj_get_set_ne by done. apply pre_rewrite_type.
  - rewrite !obj_get_set_ne by done. rewrite pre_rewrite_type. unfold js_or.
    by destruct (truthy (obj_get t "type")) eqn:E.
  - unfold pre_rewrite. rewrite !(obj_get_set_ne _ _ "metadata") by done.
    apply obj_get_set_eq.
  - rewrite obj_get_set_ne by done. apply obj_get_set_eq.
  - intros k H1 H2 H3 H4 H5 H6. unfold pre_rewrite.
    by rewrite !obj_get_set_ne, !obj_has_set_ne by done.
Qed.

(** An instance: a descriptor without a type, with a title. *)
Lemma setTargetInfo_stamps_witness :
  let a := new_Adapter "/ios" "ws://127.0.0.1:9000"
                       (mkOptions None None None None None None) in
  let t := [("id", JStr "1"); ("title", JStr "Example")] in
  to_string (normal_id t) = Some "1"
  ∧ ∃ t', snd (setTargetInfo a t JNull) = Some t'
          ∧ obj_get t' "type" = JStr "page"
          ∧ obj_get t' "title" = JStr "Example".
Proof.
  cbv zeta. split; [reflexivity|].
  destruct (setTargetInfo_stamps
              (new_Adapter "/ios" "ws://127.0.0.1:9000"
                           (mkOptions None None None None None None))
              [("id", JStr "1"); ("title", JStr "Example")] JNull "1" eq_refl)
    as (t' & Hret & _ & _ & Htype & _ & _ & _ & Hother).
  exists t'. split; [exact Hret|]. split; [exact Htype|].
  refine (proj1 (Hother "title" _ _ _ _ _ _)); discriminate.
Defined.

(** X12: the viewer URL of a rewritten descriptor is the fixed viewer
    address followed by the relayed address of the target, without the scheme
    when the address of the relay starts with [ws://], and whole when [ws://]
    does not occur in the address of the relay. *)
Theorem viewer_url_embeds_relayed_address a t metadata tid :
  to_string (normal_id t) = Some tid →
  ∃ t' wsUrl,
    snd (setTargetInfo a t metadata) = Some t'
    ∧ obj_get t' "devtoolsFrontendUrl" = JStr (viewer +:+ wsUrl)
    ∧ (∀ host, _proxyUrl a = "ws://" +:+ host →
               wsUrl = host +:+ _id a +:+ "/" +:+ tid)
    ∧ (JsString.search "ws://" (_proxyUrl a) = None → wsUrl = relayed_url a tid).
Proof.
  intros Htid. rewrite setTargetInfo_unfold. cbv zeta. rewrite Htid. cbn [snd].
  eexists. eexists. split; [done|]. split; [apply obj_get_set_eq|]. split.
  - intros host ->. by rewrite replace_ws_scheme.
  - intros Habsent. by rewrite replace_absent.
Qed.

(** An instance: the relay listens on [ws://127.0.0.1:9000]. *)
Lemma viewer_url_embeds_relayed_address_witness :
  let a := new_Adapter "/ios" "ws://127.0.0.1:9000"
                       (mkOptions None None None None None None) in
  let t := [("id", JStr "1")] in
  to_string (normal_id t) = Some "1"
  ∧ ∃ t', snd (setTargetInfo a t JNull) = Some t'
          ∧ obj_get t' "devtoolsFrontendUrl" = JStr (viewer +:+ "127.0.0.1:9000/ios/1").
Proof.
  cbv zeta. split; [reflexivity|].
  destruct (viewer_url_embeds_relayed_address
              (new_Adapter "/ios" "ws://127.0.0.1:9000"
                           (mkOptions None None None None None None))
              [("id", JStr "1")] JNull "1" eq_refl)
    as (t' & wsUrl & Hret & Hurl & Hws & _).
  exists t'. split; [exact Hret|].
  rewrite Hurl. rewrite (Hws "127.0.0.1:9000" eq_refl). reflexivity.
Defined.

Lemma primitive_id_printable v : primitive v = true → is_Some (to_string v).
Proof. destruct v; cbn; try done; by eexists. Qed.

Section Stores.

Context {V : Type}.
Implicit Types (m : list (JsVal * V)) (k : JsVal).

Lemma same_value_zero_sym k1 k2 : same_value_zero k1 k2 = same_value_zero k2 k1.
Proof.
  destruct k1, k2; cbn; try done.
  - by destruct b, b0.
  - apply String.eqb_sym.
  - apply String.eqb_sym.
Qed.

Lemma same_value_zero_primitive k : primitive k = true → same_value_zero k k = true.
Proof.
  destruct k; cbn; intros H; try done; [by destruct b|apply String.eqb_refl..].
Qed.

(** Setting a key twice leaves the second value. *)
Lemma map_set_set m k v v' :
  same_value_zero k k = true → map_set (map_set m k v) k v' = map_set m k v'.
Proof.
  intros Hk. induction m as [|[k0 v0] m IH]; cbn; [by rewrite Hk|].
  destruct (same_value_zero k0 k) eqn:E; cbn; rewrite E; [done|by rewrite IH].
Qed.

(** Setting two different keys, one of which the map holds already, in
    either order gives the same map. *)
Lemma map_set_comm m k1 v1 k2 v2 :
  same_value_zero k1 k2 = false → map_has m k1 = true →
  map_set (map_set m k1 v1) k2 v2 = map_set (map_set m k2 v2) k1 v1.
Proof.
  intros Hne. unfold map_has. induction m as [|[k0 v0] m IH]; cbn; [done|].
  destruct (same_value_zero k0 k1) eqn:E1.
  - intros _. assert (k0 = k1) as -> by by apply same_value_zero_eq.
    cbn. rewrite Hne. cbn. by rewrite E1.
  - intros Hhas. destruct (same_value_zero k0 k2) eqn:E2; cbn; rewrite E1, ?E2; [done|].
    by rewrite IH.
Qed.

End Stores.

Section StoreAll.

Variables (adapterType : string) (metadata : JsVal).

Lemma store_all_cons m t ts :
  store_all adapterType metadata m (t :: ts)
  = store_all adapterType metadata
      (map_set m (normal_id t) (json_clone (pre_rewrite adapterType t metadata))) ts.
Proof. reflexivity. Qed.

Lemma store_all_has ts : ∀ m q,
  map_has m q = true → map_has (store_all adapterType metadata m ts) q = true.
Proof.
  induction ts as [|t ts IH]; intros m q Hq; [done|].
  rewrite store_all_cons. by apply IH, map_has_set.
Qed.

(** A value stored under an id that is listed again is overwritten. *)
Lemma store_all_absorbs ts : ∀ m k v,
  lists_id ts k = true → map_has m k = true → same_value_zero k k = true →
  store_all adapterType metadata (map_set m k v) ts = store_all adapterType metadata m ts.
Proof.
  induction ts as [|t ts IH]; intros m k v Hlisted Hhas Hk; [done|].
  rewrite !store_all_cons. cbn in Hlisted.
  destruct (same_value_zero (normal_id t) k) eqn:E.
  - assert (normal_id t = k) as -> by by apply same_value_zero_eq.
    by rewrite map_set_set.
  - rewrite map_set_comm; [|by rewrite same_value_zero_sym|done].
    apply IH; [done|by apply map_has_set|done].
Qed.

(** A value can be stored before or after descriptors that do not list
    its id. *)
Lemma store_all_commutes ts : ∀ m k v,
  lists_id ts k = false → map_has m k = true →
  map_set (store_all adapterType metadata m ts) k v
  = store_all adapterType metadata (map_set m k v) ts.
Proof.
  induction ts as [|t ts IH]; intros m k v Hlisted Hhas; [done|].
  rewrite !store_all_cons. cbn in Hlisted.
  apply orb_false_iff in Hlisted as [E Hlisted].
  rewrite IH; [|done|by apply map_has_set].
  f_equal. symmetry. apply map_set_comm; [by rewrite same_value_zero_sym|done].
Qed.

(** Storing the same descriptors a second time leaves the table as it is. *)
Lemma store_all_idempotent ts : ∀ m,
  Forall (λ t, primitive (normal_id t) = true) ts →
  store_all adapterType metadata (store_all adapterType metadata m ts) ts
  = store_all adapterType metadata m ts.
Proof.
  induction ts as [|t ts IH]; intros m Hall; [done|].
  apply Forall_cons in Hall as [Ht Hall]. apply same_value_zero_primitive in Ht.
  rewrite (store_all_cons m). set (k := normal_id t) in *.
  set (v := json_clone (pre_rewrite adapterType t metadata)).
  set (m0 := map_set m k v).
  assert (map_has m0 k = true) as Hhas0
    by (unfold m0, map_has; by rewrite map_get_set, Ht).
  assert (map_has (store_all adapterType metadata m0 ts) k = true) as Hhas1
    by by apply store_all_has.
  rewrite store_all_cons. fold k v.
  destruct (lists_id ts k) eqn:Hlisted.
  - rewrite store_all_absorbs by done. by apply IH.
  - rewrite (store_all_commutes ts m0 k v) by done. unfold m0.
    rewrite map_set_set by done. by apply IH.
Qed.

End StoreAll.

(** The loop of [getTargets] stores every descriptor when none throws. *)
Lemma forEach_stores metadata ts :
  ∀ a acc, Forall printable_id ts →
  fst (forEach_setTargetInfo a ts metadata acc)
  = with_targetData a
      (store_all (_adapterType a) metadata (_targetIdToTargetDataMap a) ts).
Proof.
  induction ts as [|t ts IH]; intros a acc Hall; [by destruct a|].
  apply Forall_cons in Hall as [[tid Htid] Hall]. cbn [forEach_setTargetInfo].
  pose proof (setTargetInfo_unfold a t metadata) as Hu. cbv zeta in Hu.
  rewrite Htid in Hu. rewrite Hu. by rewrite IH.
Qed.

Lemma getTargets_stores metadata statusCode ts w :
  Forall printable_id ts →
  snd (getTargets metadata (Response statusCode (JsonTargets ts)) w)
  = with_adapter w
      (with_targetData (adapter w)
         (store_all (_adapterType (adapter w)) metadata
                    (_targetIdToTargetDataMap (adapter w)) ts)).
Proof.
  intros Hall. unfold getTargets.
  pose proof (forEach_stores metadata ts (adapter w) [] Hall) as Hfst.
  destruct (forEach_setTargetInfo _ _ _ _) as [a [rs|]]; cbn in *; by rewrite Hfst.
Qed.

(** X13: polling is idempotent for descriptors whose ids are strings,
    numbers, booleans, [null] or absent.  When a discovery is repeated with
    the same response and the same metadata, the second call resolves to the
    same descriptors as the first and leaves the world, the endpoint table
    entry by entry included, exactly as the first call left it. *)
Theorem discovery_is_idempotent metadata statusCode ts w :
  Forall (λ t, primitive (normal_id t) = true) ts →
  let reply := Response statusCode (JsonTargets ts) in
  let once := getTargets metadata reply w in
  let twice := getTargets metadata reply (snd once) in
  fst twice = fst once
  ∧ _targetIdToTargetDataMap (adapter (snd twice))
    = _targetIdToTargetDataMap (adapter (snd once))
  ∧ snd twice = snd once.
Proof.
  intros Hprim reply once twice. subst twice once reply.
  assert (Forall printable_id ts) as Hall.
  { eapply Forall_impl; [exact Hprim|]. intros t Ht. by apply primitive_id_printable. }
  assert (snd (getTargets metadata (Response statusCode (JsonTargets ts))
                 (snd (getTargets metadata (Response statusCode (JsonTargets ts)) w)))
          = snd (getTargets metadata (Response statusCode (JsonTargets ts)) w)) as Hsnd.
  { rewrite (getTargets_stores _ _ _ _ Hall).
    rewrite (getTargets_stores metadata statusCode ts w Hall). cbn.
    by rewrite store_all_idempotent. }
  split; [|split; [by rewrite Hsnd|exact Hsnd]].
  destruct (getTargets_resolved metadata statusCode ts w Hall)
    as (m1 & rs1 & Hrun1 & Hlen1 & Hnth1 & _).
  rewrite Hrun1. cbn [fst snd].
  destruct (getTargets_resolved metadata statusCode ts
              (with_adapter w (with_targetData (adapter w) m1)) Hall)
    as (m2 & rs2 & Hrun2 & Hlen2 & Hnth2 & _).
  rewrite Hrun2. cbn [fst]. f_equal. apply list_eq. intros i.
  destruct (ts !! i) as [t|] eqn:Hi.
  - rewrite (Hnth1 i t Hi), (Hnth2 i t Hi). apply setTargetInfo_result.
  - apply lookup_ge_None in Hi.
    rewrite (lookup_ge_None_2 rs1), (lookup_ge_None_2 rs2); [done|lia|lia].
Qed.

(** An instance: a response that lists target 1 twice, with two addresses,
    and a target known by its [appId], polled twice. *)
Lemma discovery_is_idempotent_witness :
  let w := new_World "/ios" "ws://127.0.0.1:9000"
                     (mkOptions None None None None None None) in
  let ts := [[("id", JStr "1"); ("webSocketDebuggerUrl", JStr "ws://127.0.0.1:9222/a")];
             [("appId", JStr "PID:2")];
             [("id", JStr "1"); ("webSocketDebuggerUrl", JStr "ws://127.0.0.1:9222/b")]] in
  let reply := Response 200 (JsonTargets ts) in
  Forall (λ t, primitive (normal_id t) = true) ts
  ∧ fst (getTargets JNull reply (snd (getTargets JNull reply w)))
    = fst (getTargets JNull reply w)
  ∧ snd (getTargets JNull reply (snd (getTargets JNull reply w)))
    = snd (getTargets JNull reply w).
Proof.
  cbv zeta.
  assert (Forall (λ t, primitive (normal_id t) = true)
            [[("id", JStr "1"); ("webSocketDebuggerUrl", JStr "ws://127.0.0.1:9222/a")];
             [("appId", JStr "PID:2")];
             [("id", JStr "1"); ("webSocketDebuggerUrl", JStr "ws://127.0.0.1:9222/b")]])
    as Hall by (repeat constructor).
  split; [exact Hall|].
  destruct (discovery_is_idempotent JNull 200 _
              (new_World "/ios" "ws://127.0.0.1:9000"
                         (mkOptions None None None None None None)) Hall)
    as (Hfst & _ & Hsnd).
  split; [exact Hfst|exact Hsnd].
Defined.

(** ** What an Adapter never forgets *)

Lemma run_grows ops :
  ∀ w,
    (∀ q, map_has (_targetIdToTargetDataMap (adapter w)) q = true →
          map_has (_targetIdToTargetDataMap (adapter (run_world ops w))) q = true)
    ∧ (∀ id r, _targetMap (adapter w) !! id = Some r →
               _targetMap (adapter (run_world ops w)) !! id = Some r).
Proof.
  induction ops as [|op ops IH]; intros w; [done|]. rewrite run_world_cons.
  destruct (step_grows op w) as [Hhas Hmap].
  destruct (IH (snd (step op w))) as [Hhas' Hmap']. split; eauto.
Qed.

(** X14: an endpoint record is never removed.  Once an id is known to the
    Adapter it stays known through every sequence of operations: stopping the
    Adapter, a failed or empty discovery, or the closure of its session do not
    expire it. *)
Theorem records_never_expire ops w q :
  map_has (_targetIdToTargetDataMap (adapter w)) q = true →
  map_has (_targetIdToTargetDataMap (adapter (run_world ops w))) q = true.
Proof. apply (run_grows ops w). Qed.

(** An instance: target 1 is discovered; then the discovery fails, the
    Adapter is stopped and a discovery finds no target. *)
Lemma records_never_expire_witness :
  let w := run_world [OpGetTargets JNull (Response 200 (JsonTargets [[("id", JStr "1")]]))]
                     (new_World "/ios" "ws://127.0.0.1:9000"
                                (mkOptions None None None None None None)) in
  let ops := [OpGetTargets JNull TransportError; OpStop;
              OpGetTargets JNull (Response 200 (JsonTargets []))] in
  map_has (_targetIdToTargetDataMap (adapter w)) (JStr "1") = true
  ∧ map_has (_targetIdToTargetDataMap (adapter (run_world ops w))) (JStr "1") = true.
Proof.
  cbv zeta. split; [reflexivity|].
  exact (records_never_expire
           [OpGetTargets JNull TransportError; OpStop;
            OpGetTargets JNull (Response 200 (JsonTargets []))]
           (run_world
              [OpGetTargets JNull (Response 200 (JsonTargets [[("id", JStr "1")]]))]
              (new_World "/ios" "ws://127.0.0.1:9000"
                         (mkOptions None None None None None None)))
           (JStr "1") eq_refl).
Defined.

(** No operation removes a [Target], changes its id or its data, or rewrites
    the calls it has received. *)
Lemma target_call_extends c o :
  target_id (target_call c o) = target_id o
  ∧ target_data (target_call c o) = target_data o
  ∧ target_calls o `prefix_of` target_calls (target_call c o).
Proof. repeat split. by apply prefix_app_r. Qed.

Lemma alter_call_extends c r (l : list Target) r0 o :
  l !! r0 = Some o →
  ∃ o', alter (target_call c) r l !! r0 = Some o'
        ∧ target_id o' = target_id o
        ∧ target_data o' = target_data o
        ∧ target_calls o `prefix_of` target_calls o'.
Proof.
  intros Hr0. rewrite list_lookup_alter. case_decide as Hr.
  - subst r0. rewrite Hr0. cbn. eexists. split; [done|]. apply target_call_extends.
  - exists o. by repeat split.
Qed.

Lemma step_extends op w r o :
  targets w !! r = Some o →
  ∃ o', targets (snd (step op w)) !! r = Some o'
        ∧ target_id o' = target_id o
        ∧ target_data o' = target_data o
        ∧ target_calls o `prefix_of` target_calls o'.
Proof.
  intros Hr.
  assert (∃ o', targets w !! r = Some o' ∧ target_id o' = target_id o
                ∧ target_data o' = target_data o
                ∧ target_calls o `prefix_of` target_calls o') as Hsame
    by (exists o; by repeat split).
  destruct (process_op op) eqn:Hop.
  { destruct (process_op_frame op w Hop) as (_ & _ & ->). exact Hsame. }
  destruct op; try discriminate; cbn.
  - destruct (getTargets_frame metadata reply w) as (_ & Htargets & _).
    destruct (getTargets metadata reply w) as [p w']. cbn in *. by rewrite Htargets.
  - destruct (map_get (_targetIdToTargetDataMap (adapter w)) (JStr targetId))
      as [targetData|] eqn:Hdata.
    + destruct (_targetMap (adapter w) !! targetId) as [target|] eqn:Hmap.
      * rewrite (connectTo_bound _ _ _ _ _ Hdata Hmap). cbn.
        by apply alter_call_extends.
      * rewrite (connectTo_fresh _ _ _ _ Hdata Hmap). cbn.
        exists o. split; [by apply lookup_app_l_Some|by repeat split].
    + by rewrite (connectTo_unknown _ _ _ Hdata).
  - unfold forwardTo. destruct (_targetMap (adapter w) !! targetId) as [target|];
      [|exact Hsame].
    cbn. by apply alter_call_extends.
  - unfold on_socketClosed. by destruct (targets w !! target).
Qed.

Lemma run_extends ops :
  ∀ w r o,
    targets w !! r = Some o →
    ∃ o', targets (run_world ops w) !! r = Some o'
          ∧ target_id o' = target_id o
          ∧ target_data o' = target_data o
          ∧ target_calls o `prefix_of` target_calls o'.
Proof.
  induction ops as [|op ops IH]; intros w r o Hr.
  - exists o. by repeat split.
  - rewrite run_world_cons.
    destruct (step_extends op w r o Hr) as (o1 & Hr1 & Hid1 & Hdata1 & Hcalls1).
    destruct (IH _ r o1 Hr1) as (o2 & Hr2 & Hid2 & Hdata2 & Hcalls2).
    exists o2. split; [done|]. split; [congruence|]. split; [congruence|].
    by etrans.
Qed.

(** X15: a binding is for good.  Once a session is bound to an id, after
    every sequence of operations the id is bound to the same session, the
    session still exists with the id and the endpoint data it was created
    with, even when a later discovery has replaced the endpoint record, and
    the calls it had received are the beginning of the calls it has received
    by then. *)
Theorem binding_is_for_good ops w id r :
  reachable w →
  _targetMap (adapter w) !! id = Some r →
  _targetMap (adapter (run_world ops w)) !! id = Some r
  ∧ ∃ o o', targets w !! r = Some o
            ∧ targets (run_world ops w) !! r = Some o'
            ∧ target_id o' = id
            ∧ target_data o' = target_data o
            ∧ target_calls o `prefix_of` target_calls o'.
Proof.
  intros Hw%reachable_consistent Hr.
  split; [by apply (run_grows ops w)|].
  pose proof (bound_is_created w Hw id r Hr) as Hcreated.
  unfold target_ids in Hcreated. rewrite list_lookup_fmap in Hcreated.
  destruct (targets w !! r) as [o|] eqn:Ho; [|done]. injection Hcreated as Hid.
  destruct (run_extends ops w r o Ho) as (o' & Ho' & Hid' & Hdata' & Hcalls').
  exists o, o'. repeat split; try done. congruence.
Qed.

(** An instance: target 1 is bound; then its session closes, a discovery
    gives it another address and the Adapter is stopped. *)
Lemma binding_is_for_good_witness :
  let w := run_world
             [OpGetTargets JNull
                (Response 200
                   (JsonTargets [[("id", JStr "1");
                                  ("webSocketDebuggerUrl", JStr "ws://127.0.0.1:9222/1")]]));
              OpConnectTo "1" 7%nat]
             (new_World "/ios" "ws://127.0.0.1:9000"
                        (mkOptions None None None None None None)) in
  let ops := [EvSocketClosed 0%nat "1";
              OpGetTargets JNull
                (Response 200
                   (JsonTargets [[("id", JStr "1");
                                  ("webSocketDebuggerUrl", JStr "ws://127.0.0.1:9333/1")]]));
              OpStop] in
  reachable w
  ∧ _targetMap (adapter w) !! "1" = Some 0%nat
  ∧ _targetMap (adapter (run_world ops w)) !! "1" = Some 0%nat.
Proof.
  cbv zeta.
  pose proof (run_world_reachable
                [OpGetTargets JNull
                   (Response 200
                      (JsonTargets [[("id", JStr "1");
                                     ("webSocketDebuggerUrl", JStr "ws://127.0.0.1:9222/1")]]));
                 OpConnectTo "1" 7%nat] _
                (reachable_new "/ios" "ws://127.0.0.1:9000"
                               (mkOptions None None None None None None))) as Hw.
  split; [exact Hw|]. split; [reflexivity|].
  exact (proj1 (binding_is_for_good
                  [EvSocketClosed 0%nat "1";
                   OpGetTargets JNull
                     (Response 200
                        (JsonTargets [[("id", JStr "1");
                                       ("webSocketDebuggerUrl", JStr "ws://127.0.0.1:9333/1")]]));
                   OpStop] _ "1" 0%nat Hw eq_refl)).
Defined.

(** ** From discovery to a session *)

(** X16: the rewrite is undone on connection.  After a discovery has listed
    the target [id] without a session, [connectTo] for [id] creates the
    session from the stored copy of the descriptor and connects it to the
    [webSocketDebuggerUrl] the runtime gave in the response, not to the
    relayed address that was returned to the client. *)
Theorem connect_after_discovery metadata statusCode ts w t id wsFrom :
  Forall printable_id ts →
  clean_props t = true →
  normal_id t = JStr id →
  last_listed ts (JStr id) = Some t →
  _targetMap (adapter w) !! id = None →
  let w1 := snd (getTargets metadata (Response statusCode (JsonTargets ts)) w) in
  let record := json_clone (pre_rewrite (_adapterType (adapter w)) t metadata) in
  fst (connectTo id wsFrom w1) = Some (length (targets w))
  ∧ targets (snd (connectTo id wsFrom w1))
    = targets w ++
        [mkTarget id record
           [CallConnectTo (obj_get t "webSocketDebuggerUrl") wsFrom;
            CallOn "socketClosed"]]
  ∧ _targetMap (adapter (snd (connectTo id wsFrom w1))) !! id
    = Some (length (targets w)).
Proof.
  intros Hall Hclean Hid Hlast Hmap w1 record. subst w1.
  destruct (getTargets_resolved metadata statusCode ts w Hall)
    as (m & rs & Hrun & _ & _ & Hget & _).
  rewrite Hrun. cbn [snd].
  assert (map_get (_targetIdToTargetDataMap
                     (adapter (with_adapter w (with_targetData (adapter w) m))))
                  (JStr id) = Some record) as Hdata
    by (cbn; by rewrite Hget, Hlast).
  rewrite (connectTo_fresh id wsFrom _ record Hdata Hmap). cbn.
  split; [done|]. split; [|apply lookup_insert_eq].
  subst record. by rewrite record_keeps_url.
Qed.

(** An instance: target 1 of the runtime at port 9222. *)
Lemma connect_after_discovery_witness :
  let w := new_World "/ios" "ws://127.0.0.1:9000"
                     (mkOptions None None None None None None) in
  let t := [("id", JStr "1"); ("webSocketDebuggerUrl", JStr "ws://127.0.0.1:9222/1")] in
  let w1 := snd (getTargets JNull (Response 200 (JsonTargets [t])) w) in
  Forall printable_id [t]
  ∧ clean_props t = true
  ∧ normal_id t = JStr "1"
  ∧ last_listed [t] (JStr "1") = Some t
  ∧ _targetMap (adapter w) !! "1" = None
  ∧ targets (snd (connectTo "1" 7%nat w1))
    = [mkTarget "1" (json_clone (pre_rewrite "_ios" t JNull))
         [CallConnectTo (JStr "ws://127.0.0.1:9222/1") 7%nat; CallOn "socketClosed"]].
Proof.
  cbv zeta.
  assert (Forall printable_id
            [[("id", JStr "1"); ("webSocketDebuggerUrl", JStr "ws://127.0.0.1:9222/1")]])
    as Hall by (repeat constructor; by eexists).
  split; [exact Hall|]. do 4 (split; [reflexivity|]).
  exact (proj1 (proj2 (connect_after_discovery JNull 200 _
                         (new_World "/ios" "ws://127.0.0.1:9000"
                                    (mkOptions None None None None None None))
                         [("id", JStr "1");
                          ("webSocketDebuggerUrl", JStr "ws://127.0.0.1:9222/1")]
                         "1" 7%nat Hall eq_refl eq_refl eq_refl eq_refl))).
Defined.

(** X17: messages reach a session in the order they are forwarded.  A run
    of [forwardTo] calls for a bound id appends one [forward] call for each
    message, in order and unchanged, to the calls of the bound session, and
    changes neither the Adapter nor any other session nor the log. *)
Theorem forwardTo_keeps_order messages :
  ∀ w id r o,
    _targetMap (adapter w) !! id = Some r →
    targets w !! r = Some o →
    let w' := run_world (OpForwardTo id <$> messages) w in
    targets w' !! r
    = Some (mkTarget (target_id o) (target_data o)
                     (target_calls o ++ (CallForward <$> messages)))
    ∧ adapter w' = adapter w
    ∧ log w' = log w
    ∧ ∀ r', r' ≠ r → targets w' !! r' = targets w !! r'.
Proof.
  induction messages as [|message messages IH]; intros w id r o Hr Ho; cbv zeta.
  - cbn. rewrite app_nil_r. by destruct o.
  - rewrite fmap_cons, run_world_cons. cbn [step snd].
    assert (forwardTo id message w
            = with_targets w (alter (target_call (CallForward message)) r (targets w)))
      as -> by (unfold forwardTo; by rewrite Hr).
    destruct (IH (with_targets w (alter (target_call (CallForward message)) r (targets w)))
                 id r (target_call (CallForward message) o))
      as (Hlookup & Hadapter & Hlog & Hother).
    + exact Hr.
    + cbn. by rewrite list_lookup_alter_eq, Ho.
    + rewrite Hlookup, Hadapter, Hlog. cbn. rewrite <- app_assoc.
      repeat split. intros r' Hne. rewrite (Hother r' Hne). cbn.
      by rewrite list_lookup_alter_ne.
Qed.

(** An instance: two messages to the bound session of target 1. *)
Lemma forwardTo_keeps_order_witness :
  let w := run_world
             [OpGetTargets JNull (Response 200 (JsonTargets [[("id", JStr "1");
                                  ("webSocketDebuggerUrl", JStr "ws://127.0.0.1:9222/1")]]));
              OpConnectTo "1" 7%nat]
             (new_World "/ios" "ws://127.0.0.1:9000"
                        (mkOptions None None None None None None)) in
  let o := mkTarget "1" (json_clone (pre_rewrite "_ios"
                                      [("id", JStr "1");
                                       ("webSocketDebuggerUrl", JStr "ws://127.0.0.1:9222/1")]
                                      JNull))
                    [CallConnectTo (JStr "ws://127.0.0.1:9222/1") 7%nat; CallOn "socketClosed"] in
  _targetMap (adapter w) !! "1" = Some 0%nat
  ∧ targets w !! 0%nat = Some o
  ∧ targets (run_world (OpForwardTo "1" <$> ["a"; "b"]) w) !! 0%nat
    = Some (mkTarget "1" (target_data o)
              (target_calls o ++ [CallForward "a"; CallForward "b"])).
Proof.
  cbv zeta. do 2 (split; [reflexivity|]).
  exact (proj1 (forwardTo_keeps_order ["a"; "b"]
                  (run_world
                     [OpGetTargets JNull (Response 200 (JsonTargets [[("id", JStr "1");
                                  ("webSocketDebuggerUrl", JStr "ws://127.0.0.1:9222/1")]]));
                      OpConnectTo "1" 7%nat]
                     (new_World "/ios" "ws://127.0.0.1:9000"
                                (mkOptions None None None None None None)))
                  "1" 0%nat
                  (mkTarget "1" (json_clone (pre_rewrite "_ios"
                                      [("id", JStr "1");
                                       ("webSocketDebuggerUrl", JStr "ws://127.0.0.1:9222/1")]
                                      JNull))
                            [CallConnectTo (JStr "ws://127.0.0.1:9222/1") 7%nat; CallOn "socketClosed"])
                  eq_refl eq_refl)).
Defined.

(** ** Endpoint records are JSON data *)

(** Whatever is copied, the copy is free of [undefined] and of numbers that
    are not finite. *)
Lemma json_copy_gives_clean : ∀ v v', json_copy v = Some v' → json_clean v' = true.
Proof.
  fix IH 1. intros [| | b | r | s | elems | props] v'; cbn; intros [= <-]; try done.
  - by destruct (finite r) eqn:E.
  - cbn. induction elems as [|e l IHl]; [done|].
    apply andb_true_iff. split; [|exact IHl].
    destruct (json_copy e) as [e'|] eqn:He; [exact (IH e e' He)|done].
  - cbn. induction props as [|[k x] l IHl]; [done|].
    destruct (json_copy x) as [x'|] eqn:Hx; [|exact IHl].
    apply andb_true_iff. split; [exact (IH x x' Hx)|exact IHl].
Qed.

Lemma copy_props_gives_clean (o : list (string * JsVal)) :
  clean_props (copy_props o) = true.
Proof.
  induction o as [|[k x] o IH]; cbn; [done|].
  destruct (json_copy x) as [x'|] eqn:Hx; [|done]. cbn.
  by rewrite (json_copy_gives_clean x x' Hx), IH.
Qed.

Lemma records_clean_set m k (record : list (string * JsVal)) :
  records_clean m → clean_props record = true → records_clean (map_set m k record).
Proof.
  unfold records_clean. intros Hm Hrecord.
  induction m as [|[k' v'] m IH]; cbn; [by repeat constructor|].
  apply Forall_cons in Hm as [Hv' Hm].
  destruct (same_value_zero k' k); constructor; auto.
Qed.

Lemma records_clean_get m k (record : list (string * JsVal)) :
  records_clean m → map_get m k = Some record → clean_props record = true.
Proof.
  unfold records_clean. induction m as [|[k' v'] m IH]; cbn; [done|].
  intros [Hv' Hm]%Forall_cons. destruct (same_value_zero k' k); [|by apply IH].
  by intros [= <-].
Qed.

Lemma forEach_records_clean metadata ts :
  ∀ a acc,
    records_clean (_targetIdToTargetDataMap a) →
    records_clean (_targetIdToTargetDataMap (fst (forEach_setTargetInfo a ts metadata acc))).
Proof.
  induction ts as [|t ts IH]; intros a acc Ha; cbn; [done|].
  pose proof (setTargetInfo_adapter a t metadata) as Hset.
  destruct (setTargetInfo a t metadata) as [a1 [t1|]]; cbn in Hset; subst a1.
  - apply IH. cbn. apply records_clean_set; [done|apply copy_props_gives_clean].
  - cbn. apply records_clean_set; [done|apply copy_props_gives_clean].
Qed.

Lemma step_records_clean op w :
  records_clean (_targetIdToTargetDataMap (adapter w))
  ∧ Forall (λ o, clean_props (target_data o) = true) (targets w) →
  records_clean (_targetIdToTargetDataMap (adapter (snd (step op w))))
  ∧ Forall (λ o, clean_props (target_data o) = true) (targets (snd (step op w))).
Proof.
  intros [Hrecords Htargets].
  assert (∀ c r, Forall (λ o, clean_props (target_data o) = true)
                        (alter (target_call c) r (targets w))) as Halter.
  { intros c r. apply Forall_lookup. intros r0 o' Hr0.
    rewrite list_lookup_alter in Hr0. case_decide.
    - destruct (targets w !! r) as [o|] eqn:Ho; [|done]. cbn in Hr0.
      injection Hr0 as <-. cbn. by apply (Forall_lookup_1 _ _ _ _ Htargets Ho).
    - by apply (Forall_lookup_1 _ _ _ _ Htargets Hr0). }
  destruct (process_op op) eqn:Hop.
  { destruct (process_op_frame op w Hop) as (_ & -> & ->). by split. }
  destruct op; try discriminate; cbn.
  - destruct (getTargets_frame metadata reply w) as (_ & Hsame & _).
    destruct reply as [|statusCode [|ts]]; cbn in *; try by split.
    pose proof (forEach_records_clean metadata ts (adapter w) [] Hrecords) as Hclean.
    by destruct (forEach_setTargetInfo _ _ _ _) as [a [rs|]].
  - destruct (map_get (_targetIdToTargetDataMap (adapter w)) (JStr targetId))
      as [targetData|] eqn:Hdata.
    + destruct (_targetMap (adapter w) !! targetId) as [target|] eqn:Hmap.
      * rewrite (connectTo_bound _ _ _ _ _ Hdata Hmap). cbn. by split.
      * rewrite (connectTo_fresh _ _ _ _ Hdata Hmap). cbn. split; [done|].
        apply Forall_app. split; [done|]. apply Forall_singleton. cbn.
        by apply (records_clean_get _ _ _ Hrecords Hdata).
    + rewrite (connectTo_unknown _ _ _ Hdata). by split.
  - unfold forwardTo. destruct (_targetMap (adapter w) !! targetId); [|by split].
    cbn. by split.
  - unfold on_socketClosed. destruct (targets w !! target); by split.
Qed.

(** X18: every endpoint record an Adapter holds, and the endpoint data of
    every session it has created, is plain JSON data, free of [undefined]
    whatever metadata the discoveries attached; copying a record again gives
    the same record. *)
Theorem records_are_json w :
  reachable w →
  records_clean (_targetIdToTargetDataMap (adapter w))
  ∧ Forall (λ o, clean_props (target_data o) = true) (targets w)
  ∧ ∀ q record, map_get (_targetIdToTargetDataMap (adapter w)) q = Some record →
                clean_props record = true ∧ json_clone record = record.
Proof.
  intros Hw.
  assert (records_clean (_targetIdToTargetDataMap (adapter w))
          ∧ Forall (λ o, clean_props (target_data o) = true) (targets w)) as [H1 H2].
  { induction Hw as [id socket options|op w _ IH].
    - split; constructor.
    - by apply step_records_clean. }
  split; [done|]. split; [done|]. intros q record Hq.
  pose proof (records_clean_get _ _ _ H1 Hq) as Hclean.
  split; [done|]. by apply copy_props_clean.
Qed.

(** An instance: a descriptor discovered with metadata that holds
    [undefined]. *)
Lemma records_are_json_witness :
  let w := run_world
             [OpGetTargets (JObj [("device", JUndefined)])
                (Response 200 (JsonTargets [[("id", JStr "1")]]))]
             (new_World "/ios" "ws://127.0.0.1:9000"
                        (mkOptions None None None None None None)) in
  reachable w
  ∧ records_clean (_targetIdToTargetDataMap (adapter w))
  ∧ map_get (_targetIdToTargetDataMap (adapter w)) (JStr "1")
    = Some [("id", JStr "1"); ("adapterType", JStr "_ios"); ("type", JStr "page");
            ("metadata", JObj [])].
Proof.
  cbv zeta.
  pose proof (run_world_reachable
                [OpGetTargets (JObj [("device", JUndefined)])
                   (Response 200 (JsonTargets [[("id", JStr "1")]]))] _
                (reachable_new "/ios" "ws://127.0.0.1:9000"
                               (mkOptions None None None None None None))) as Hw.
  split; [exact Hw|]. split; [exact (proj1 (records_are_json _ Hw))|reflexivity].
Defined.

(** ** Ids that can and cannot be printed *)

Lemma unprintable_is_no_key v q : to_string v = None → same_value_zero v q = false.
Proof. destruct v; cbn; try done; by destruct b. Qed.

(** X19: a response whose descriptors have ids that are strings, numbers,
    booleans, [null] or absent settles for every metadata that is [undefined]
    or built from [null], booleans, numbers, strings, [undefined], arrays and
    plain objects: [getTargets] resolves to as many descriptors as the
    response lists, whatever the status code and the state of the Adapter.
    Metadata that [JSON.stringify] throws on is not among these values. *)
Theorem getTargets_resolves metadata statusCode ts w :
  Forall (λ t, primitive (normal_id t) = true) ts →
  ∃ rs, fst (getTargets metadata (Response statusCode (JsonTargets ts)) w) = Resolved rs
        ∧ length rs = length ts.
Proof.
  intros Hall.
  assert (Forall printable_id ts) as Hprint.
  { eapply Forall_impl; [exact Hall|]. intros t Ht. by apply primitive_id_printable. }
  destruct (getTargets_resolved metadata statusCode ts w Hprint)
    as (m & rs & Hrun & Hlen & _).
  exists rs. by rewrite Hrun.
Qed.

(** An instance: ids that are a string, a number, absent and [null]. *)
Lemma getTargets_resolves_witness :
  let w := new_World "/ios" "ws://127.0.0.1:9000"
                     (mkOptions None None None None None None) in
  let ts := [[("id", JStr "1")]; [("id", JNum "2")]; [("title", JStr "untitled")];
             [("id", JNull)]] in
  Forall (λ t, primitive (normal_id t) = true) ts
  ∧ ∃ rs, fst (getTargets JNull (Response 503 (JsonTargets ts)) w) = Resolved rs
          ∧ length rs = 4%nat.
Proof.
  cbv zeta.
  assert (Forall (λ t, primitive (normal_id t) = true)
            [[("id", JStr "1")]; [("id", JNum "2")]; [("title", JStr "untitled")];
             [("id", JNull)]]) as Hall by (repeat constructor).
  split; [exact Hall|].
  exact (getTargets_resolves JNull 503 _
           (new_World "/ios" "ws://127.0.0.1:9000"
                      (mkOptions None None None None None None)) Hall).
Defined.

(** X20: a descriptor whose id cannot be printed, an object with an own
    [toString] property, makes the template literal throw inside the
    callback: the promise stays pending, the descriptors listed before it
    have been stored by then, and the lookups of the endpoint table are
    otherwise as before; the descriptors listed after it are not looked at. *)
Theorem getTargets_unprintable_id metadata statusCode ts1 t ts2 w :
  Forall printable_id ts1 →
  to_string (normal_id t) = None →
  let r := getTargets metadata (Response statusCode (JsonTargets (ts1 ++ t :: ts2))) w in
  fst r = Pending
  ∧ ∀ q, map_get (_targetIdToTargetDataMap (adapter (snd r))) q =
         match last_listed ts1 q with
         | Some t0 => Some (json_clone (pre_rewrite (_adapterType (adapter w)) t0 metadata))
         | None => map_get (_targetIdToTargetDataMap (adapter w)) q
         end.
Proof.
  intros Hall Hnone r. subst r. unfold getTargets. rewrite forEach_app.
  destruct (forEach_resolved metadata ts1 (adapter w) [] Hall)
    as (m & rs & Hrun & _ & _ & Hget & _).
  rewrite Hrun. cbn [forEach_setTargetInfo].
  pose proof (setTargetInfo_unfold (with_targetData (adapter w) m) t metadata) as Hu.
  cbv zeta in Hu. rewrite Hnone in Hu. rewrite Hu. cbn.
  split; [done|]. intros q.
  by rewrite map_get_set, (unprintable_is_no_key _ q Hnone), Hget.
Qed.

(** An instance: the second of three descriptors has an object as its id. *)
Lemma getTargets_unprintable_id_witness :
  let w := new_World "/ios" "ws://127.0.0.1:9000"
                     (mkOptions None None None None None None) in
  let t := [("id", JObj [("toString", JNull)])] in
  let r := getTargets JNull
             (Response 200 (JsonTargets ([[("id", JStr "1")]] ++ t :: [[("id", JStr "3")]])))
             w in
  Forall printable_id [[("id", JStr "1")]]
  ∧ to_string (normal_id t) = None
  ∧ fst r = Pending
  ∧ map_has (_targetIdToTargetDataMap (adapter (snd r))) (JStr "1") = true
  ∧ map_has (_targetIdToTargetDataMap (adapter (snd r))) (JStr "3") = false.
Proof.
  cbv zeta.
  assert (Forall printable_id [[("id", JStr "1")]]) as Hall
    by (repeat constructor; by eexists).
  split; [exact Hall|]. split; [reflexivity|].
  split; [|split; reflexivity].
  exact (proj1 (getTargets_unprintable_id JNull 200 [[("id", JStr "1")]]
                  [("id", JObj [("toString", JNull)])] [[("id", JStr "3")]]
                  (new_World "/ios" "ws://127.0.0.1:9000"
                             (mkOptions None None None None None None))
                  Hall eq_refl)).
Defined.

(** ** One connection to the runtime for each session *)

Lemma connected_once_call c o :
  client_call c = true → connected_once o → connected_once (target_call c o).
Proof.
  intros Hc (wsFrom & rest & Hcalls & Hrest). exists wsFrom, (rest ++ [c]). cbn.
  split; [by rewrite Hcalls|]. apply Forall_app. split; [done|].
  by apply Forall_singleton.
Qed.

Lemma connected_once_alter c r (l : list Target) :
  client_call c = true →
  Forall connected_once l → Forall connected_once (alter (target_call c) r l).
Proof.
  intros Hc Hl. apply Forall_lookup. intros r0 o' Hr0.
  rewrite list_lookup_alter in Hr0. case_decide.
  - destruct (l !! r) as [o|] eqn:Ho; [|done]. cbn in Hr0. injection Hr0 as <-.
    apply connected_once_call; [done|]. by apply (Forall_lookup_1 _ _ _ _ Hl Ho).
  - by apply (Forall_lookup_1 _ _ _ _ Hl Hr0).
Qed.

Lemma step_connected_once op w :
  Forall connected_once (targets w) →
  Forall connected_once (targets (snd (step op w))).
Proof.
  intros Hw. destruct (process_op op) eqn:Hop.
  { by destruct (process_op_frame op w Hop) as (_ & _ & ->). }
  destruct op; try discriminate; cbn.
  - destruct (getTargets_frame metadata reply w) as (_ & Hsame & _).
    destruct (getTargets metadata reply w) as [p w']. cbn in *. by rewrite Hsame.
  - destruct (map_get (_targetIdToTargetDataMap (adapter w)) (JStr targetId))
      as [targetData|] eqn:Hdata.
    + destruct (_targetMap (adapter w) !! targetId) as [target|] eqn:Hmap.
      * rewrite (connectTo_bound _ _ _ _ _ Hdata Hmap). cbn.
        by apply connected_once_alter.
      * rewrite (connectTo_fresh _ _ _ _ Hdata Hmap). cbn.
        apply Forall_app. split; [done|]. apply Forall_singleton.
        exists wsFrom, []. by split.
    + by rewrite (connectTo_unknown _ _ _ Hdata).
  - unfold forwardTo. destruct (_targetMap (adapter w) !! targetId); [|done].
    cbn. by apply connected_once_alter.
  - unfold on_socketClosed. by destruct (targets w !! target).
Qed.

(** X21: every session of an Adapter is connected to the runtime exactly
    once, when it is created, at the [webSocketDebuggerUrl] of the endpoint
    data it was created with, and is given exactly one closure listener;
    every call it receives afterwards is an [updateClient] or a [forward]. *)
Theorem sessions_connect_once w r o :
  reachable w →
  targets w !! r = Some o →
  ∃ wsFrom rest,
    target_calls o
    = CallConnectTo (obj_get (target_data o) "webSocketDebuggerUrl") wsFrom
      :: CallOn "socketClosed" :: rest
    ∧ Forall (λ c, client_call c = true) rest.
Proof.
  intros Hw Hr.
  assert (Forall connected_once (targets w)) as Hall.
  { clear r o Hr. induction Hw as [id socket options|op w _ IH]; [constructor|].
    by apply step_connected_once. }
  exact (Forall_lookup_1 _ _ _ _ Hall Hr).
Qed.

(** An instance: the session of target 1 after a second client has taken it
    over and a message has been forwarded. *)
Lemma sessions_connect_once_witness :
  let discovered :=
    OpGetTargets JNull
      (Response 200
         (JsonTargets [[("id", JStr "1");
                        ("webSocketDebuggerUrl", JStr "ws://127.0.0.1:9222/1")]])) in
  let w := run_world [discovered; OpConnectTo "1" 7%nat; OpConnectTo "1" 8%nat;
                      OpForwardTo "1" "msg"]
                     (new_World "/ios" "ws://127.0.0.1:9000"
                                (mkOptions None None None None None None)) in
  reachable w
  ∧ ∃ o, targets w !! 0%nat = Some o
         ∧ target_calls o
           = [CallConnectTo (JStr "ws://127.0.0.1:9222/1") 7%nat; CallOn "socketClosed";
              CallUpdateClient 8%nat; CallForward "msg"]
         ∧ connected_once o.
Proof.
  cbv zeta.
  pose proof (run_world_reachable
                [OpGetTargets JNull
                   (Response 200
                      (JsonTargets [[("id", JStr "1");
                                     ("webSocketDebuggerUrl", JStr "ws://127.0.0.1:9222/1")]]));
                 OpConnectTo "1" 7%nat; OpConnectTo "1" 8%nat; OpForwardTo "1" "msg"] _
                (reachable_new "/ios" "ws://127.0.0.1:9000"
                               (mkOptions None None None None None None))) as Hw.
  split; [exact Hw|]. eexists. split; [reflexivity|]. split; [reflexivity|].
  exact (sessions_connect_once _ 0%nat _ Hw eq_refl).
Defined.

(** ** The status code *)


